(** * Secure Vault: the cryptographic envelope, the login check, the session
      timer and the vault loader

    A shallow embedding of [src/lib/crypto.ts], of [verifyMasterKey] and the
    inactivity timer of [src/context/AuthContext.tsx], and of [loadData] of
    [src/components/Dashboard.tsx]; and, around them, of [createAccount],
    of the handlers of the login form ([src/components/Login.tsx]), of the
    password form's [handleSubmit], of [handleDeletePassword] and of the
    handlers of [src/components/CategoryManager.tsx].

    The TypeScript code is a thin layer over platform primitives:
    [TextEncoder]/[TextDecoder] (WHATWG Encoding), [btoa]/[atob] (HTML,
    forgiving base64), and [crypto.subtle] (SHA-256, PBKDF2 with HMAC-SHA-256,
    AES-256 in GCM mode).  They are embedded here from their standards, as
    executable functions, and checked against published test vectors.

    Conventions:
    - a JavaScript string is the list of its UTF-16 code units ([N], each
      below 65536);
    - a [Uint8Array] or [ArrayBuffer] is a [list byte];
    - a promise that resolves or rejects is a [result];
    - [crypto.getRandomValues] reads an explicit entropy source that is
      threaded through [encryptData]. *)

From Stdlib Require Import String Ascii Strings.Byte.
From Stdlib Require Import NArith ZArith List Bool Lia Permutation.
Import ListNotations.

Local Open Scope N_scope.

(* ================================================================== *)
(** * Bytes, strings and results *)
(* ================================================================== *)

(** Storing a number in a [Uint8Array] keeps it modulo 256. *)
Definition byte_of_N (n : N) : byte :=
  match Byte.of_N (n mod 256) with
  | Some b => b
  | None => Byte.x00
  end.

Definition bxor (a b : byte) : byte :=
  byte_of_N (N.lxor (Byte.to_N a) (Byte.to_N b)).

(** [xor_bytes data pad] xors [data] with the front of [pad]; the result is
    as long as the shorter of the two. *)
Fixpoint xor_bytes (data pad : list byte) : list byte :=
  match data, pad with
  | d :: data', p :: pad' => bxor d p :: xor_bytes data' pad'
  | _, _ => []
  end.

(** A JavaScript string: its UTF-16 code units. *)
Abbreviation jsstring := (list N).

(** A string literal of the development, read as a JavaScript string. *)
Definition js (s : string) : jsstring :=
  map (fun a => N_of_ascii a) (list_ascii_of_string s).

(** The ways a call of this program can fail: [atob] throws an
    [InvalidCharacterError] DOMException, [crypto.subtle.decrypt] rejects
    with an [OperationError] DOMException. *)
Inductive error : Set :=
| InvalidCharacterError
| OperationError.

Inductive result (A : Type) : Type :=
| Ok (a : A)
| Err (e : error).
Arguments Ok {A} a.
Arguments Err {A} e.

Definition bind {A B} (r : result A) (f : A -> result B) : result B :=
  match r with
  | Ok a => f a
  | Err e => Err e
  end.

Notation "'let*' x ':=' r 'in' k" := (bind r (fun x => k))
  (at level 10, x name, r at level 100, k at level 200).

(* ================================================================== *)
(** * UTF-8: [TextEncoder.encode] and [TextDecoder.decode] *)
(* ================================================================== *)

Module UTF8.

Definition is_high (c : N) : bool := (0xD800 <=? c) && (c <=? 0xDBFF).
Definition is_low (c : N) : bool := (0xDC00 <=? c) && (c <=? 0xDFFF).

(** Conversion of a JavaScript string to scalar values (Web IDL
    [USVString]): a surrogate pair becomes one code point, an unpaired
    surrogate becomes U+FFFD. *)
Fixpoint code_points (s : jsstring) : list N :=
  match s with
  | [] => []
  | c :: t =>
      if is_high c then
        match t with
        | d :: t' =>
            if is_low d
            then (0x10000 + (c - 0xD800) * 0x400 + (d - 0xDC00)) :: code_points t'
            else 0xFFFD :: code_points t
        | [] => [0xFFFD]
        end
      else if is_low c then 0xFFFD :: code_points t
      else c :: code_points t
  end.

(** The UTF-8 encoder, one code point at a time. *)
Definition encode_cp (cp : N) : list byte :=
  if cp <? 0x80 then [byte_of_N cp]
  else if cp <? 0x800 then
    [byte_of_N (0xC0 + cp / 64); byte_of_N (0x80 + cp mod 64)]
  else if cp <? 0x10000 then
    [byte_of_N (0xE0 + cp / 4096); byte_of_N (0x80 + (cp / 64) mod 64);
     byte_of_N (0x80 + cp mod 64)]
  else
    [byte_of_N (0xF0 + cp / 262144); byte_of_N (0x80 + (cp / 4096) mod 64);
     byte_of_N (0x80 + (cp / 64) mod 64); byte_of_N (0x80 + cp mod 64)].

(** [new TextEncoder().encode(s)] *)
Definition encode (s : jsstring) : list byte :=
  flat_map encode_cp (code_points s).

(** The state of the WHATWG UTF-8 decoder. *)
Record dstate : Set := mkD {
  d_cp : N;           (* code point being assembled *)
  d_seen : N;         (* continuation bytes seen *)
  d_needed : N;       (* continuation bytes needed *)
  d_lower : N;        (* bounds of the next continuation byte *)
  d_upper : N
}.

Definition d_init : dstate := mkD 0 0 0 0x80 0xBF.

(** A byte read while no continuation byte is needed. *)
Definition handle_lead (b : N) : list N * dstate :=
  if b <=? 0x7F then ([b], d_init)
  else if (0xC2 <=? b) && (b <=? 0xDF) then
    ([], mkD (b mod 32) 0 1 0x80 0xBF)
  else if (0xE0 <=? b) && (b <=? 0xEF) then
    ([], mkD (b mod 16) 0 2
             (if b =? 0xE0 then 0xA0 else 0x80)
             (if b =? 0xED then 0x9F else 0xBF))
  else if (0xF0 <=? b) && (b <=? 0xF4) then
    ([], mkD (b mod 8) 0 3
             (if b =? 0xF0 then 0x90 else 0x80)
             (if b =? 0xF4 then 0x8F else 0xBF))
  else ([0xFFFD], d_init).

(** One step of the decoder.  A byte outside the expected range ends the
    sequence with U+FFFD and is then read again as a lead byte. *)
Definition handle (st : dstate) (b : N) : list N * dstate :=
  if d_needed st =? 0 then handle_lead b
  else if (b <? d_lower st) || (d_upper st <? b) then
    let (out, st') := handle_lead b in (0xFFFD :: out, st')
  else
    let cp := d_cp st * 64 + b mod 64 in
    let seen := d_seen st + 1 in
    if seen =? d_needed st then ([cp], d_init)
    else ([], mkD cp seen (d_needed st) 0x80 0xBF).

Fixpoint decode_loop (st : dstate) (bs : list byte) : list N :=
  match bs with
  | [] => if d_needed st =? 0 then [] else [0xFFFD]
  | b :: t =>
      let (out, st') := handle st (Byte.to_N b) in
      out ++ decode_loop st' t
  end.

(** The decoder of [new TextDecoder()] has [ignoreBOM = false]: a leading
    U+FEFF of the decoded text is dropped. *)
Definition strip_bom (cps : list N) : list N :=
  match cps with
  | 0xFEFF :: t => t
  | _ => cps
  end.

(** A code point as UTF-16 code units. *)
Definition utf16_of_cp (cp : N) : list N :=
  if cp <? 0x10000 then [cp]
  else [0xD800 + (cp - 0x10000) / 0x400; 0xDC00 + (cp - 0x10000) mod 0x400].

(** [new TextDecoder().decode(bytes)] *)
Definition decode (bs : list byte) : jsstring :=
  flat_map utf16_of_cp (strip_bom (decode_loop d_init bs)).

(** A string with 16-bit code units and no unpaired surrogate. *)
Fixpoint well_formed (s : jsstring) : bool :=
  match s with
  | [] => true
  | c :: t =>
      if is_high c then
        match t with
        | d :: t' => is_low d && well_formed t'
        | [] => false
        end
      else negb (is_low c) && (c <? 65536) && well_formed t
  end.


End UTF8.

(* ================================================================== *)
(** * Base64: [btoa] and [atob] *)
(* ================================================================== *)

Module Base64.

(** The alphabet of RFC 4648, table 1. *)
Definition alphabet : list N :=
  js "ABCDEFGHIJKLMNOPQRSTUVWXYZabcdefghijklmnopqrstuvwxyz0123456789+/".

Definition pad_char : N := 61.   (* '=' *)

Definition char_of_sextet (n : N) : N := nth (N.to_nat n) alphabet 0.

(** The value of a base64 character, [None] for any other code unit. *)
Definition sextet_of_char (c : N) : option N :=
  if (65 <=? c) && (c <=? 90) then Some (c - 65)
  else if (97 <=? c) && (c <=? 122) then Some (c - 97 + 26)
  else if (48 <=? c) && (c <=? 57) then Some (c - 48 + 52)
  else if c =? 43 then Some 62
  else if c =? 47 then Some 63
  else None.

(** Encoding of the bytes of a binary string, three at a time. *)
Fixpoint encode_bytes (bs : list N) : jsstring :=
  match bs with
  | [] => []
  | [a] =>
      [char_of_sextet (a / 4); char_of_sextet ((a mod 4) * 16);
       pad_char; pad_char]
  | [a; b] =>
      [char_of_sextet (a / 4); char_of_sextet ((a mod 4) * 16 + b / 16);
       char_of_sextet ((b mod 16) * 4); pad_char]
  | a :: b :: c :: t =>
      char_of_sextet (a / 4) ::
      char_of_sextet ((a mod 4) * 16 + b / 16) ::
      char_of_sextet ((b mod 16) * 4 + c / 64) ::
      char_of_sextet (c mod 64) :: encode_bytes t
  end.

(** [btoa(s)]: throws when a code unit of [s] is above 0xFF. *)
Definition btoa (s : jsstring) : result jsstring :=
  if forallb (fun c => c <=? 255) s then Ok (encode_bytes s)
  else Err InvalidCharacterError.

Definition is_ascii_whitespace (c : N) : bool :=
  (c =? 9) || (c =? 10) || (c =? 12) || (c =? 13) || (c =? 32).

(** Removal of one or two trailing ['='] (step 2 of forgiving-base64
    decode, applied when the length is a multiple of four). *)
Definition strip_padding (s : jsstring) : jsstring :=
  match rev s with
  | p :: q :: r =>
      if p =? pad_char then
        if q =? pad_char then rev r else rev (q :: r)
      else s
  | [p] => if p =? pad_char then [] else s
  | [] => s
  end.

Fixpoint sextets (s : jsstring) : option (list N) :=
  match s with
  | [] => Some []
  | c :: t =>
      match sextet_of_char c, sextets t with
      | Some n, Some l => Some (n :: l)
      | _, _ => None
      end
  end.

(** Steps 5 to 9: the bytes of a list of sextets. *)
Fixpoint decode_sextets (l : list N) : list N :=
  match l with
  | a :: b :: c :: d :: t =>
      (a * 4 + b / 16) :: ((b mod 16) * 16 + c / 4) :: ((c mod 4) * 64 + d)
      :: decode_sextets t
  | [a; b; c] => [a * 4 + b / 16; (b mod 16) * 16 + c / 4]
  | [a; b] => [a * 4 + b / 16]
  | _ => []
  end.

(** [atob(s)]: the forgiving-base64 decode of the HTML standard; the
    result is a binary string, one code unit per byte. *)
Definition atob (s : jsstring) : result jsstring :=
  let data := filter (fun c => negb (is_ascii_whitespace c)) s in
  let data :=
    if (length data mod 4 =? 0)%nat then strip_padding data else data in
  if (length data mod 4 =? 1)%nat then Err InvalidCharacterError
  else
    match sextets data with
    | None => Err InvalidCharacterError
    | Some l => Ok (decode_sextets l)
    end.

End Base64.

(** [String.fromCharCode(...bytes)] *)
Definition fromCharCodes (bs : list byte) : jsstring := map Byte.to_N bs.

(** The items a string yields when iterated: code points, each as the
    string of its code units. *)
Fixpoint string_iter (s : jsstring) : list jsstring :=
  match s with
  | [] => []
  | c :: t =>
      if UTF8.is_high c then
        match t with
        | d :: t' =>
            if UTF8.is_low d then [c; d] :: string_iter t'
            else [c] :: string_iter t
        | [] => [[c]]
        end
      else [c] :: string_iter t
  end.

(** [Uint8Array.from(s, c => c.charCodeAt(0))] *)
Definition bytes_of_binary_string (s : jsstring) : list byte :=
  map (fun c => byte_of_N (hd 0 c)) (string_iter s).

Definition slice (from to : nat) (bs : list byte) : list byte :=
  firstn (to - from) (skipn from bs).

(* ================================================================== *)
(** * Big-endian serialisation *)
(* ================================================================== *)

(** The [n] low-order bytes of [x], most significant first. *)
Fixpoint be_bytes (n : nat) (x : N) : list byte :=
  match n with
  | O => []
  | S n' => be_bytes n' (x / 256) ++ [byte_of_N x]
  end.

(** The number a byte list denotes, most significant byte first. *)
Definition be_value (bs : list byte) : N :=
  fold_left (fun acc b => acc * 256 + Byte.to_N b) bs 0.

(** [chunks n fuel l] cuts [l] into pieces of [n] elements, the last one
    possibly shorter; [fuel] bounds the number of pieces. *)
Fixpoint chunks {A} (n : nat) (fuel : nat) (l : list A) : list (list A) :=
  match fuel, l with
  | O, _ => []
  | _, [] => []
  | S fuel', _ => firstn n l :: chunks n fuel' (skipn n l)
  end.

Definition blocks {A} (n : nat) (l : list A) : list (list A) :=
  chunks n (length l) l.

(* ================================================================== *)
(** * SHA-256 (FIPS 180-4), [crypto.subtle.digest('SHA-256', _)] *)
(* ================================================================== *)

Module SHA256.

Definition w32 (x : N) : N := x mod 4294967296.
Definition add32 (x y : N) : N := w32 (x + y).
Definition rotr (n x : N) : N :=
  N.lor (N.shiftr x n) (w32 (N.shiftl x (32 - n))).
Definition shr (n x : N) : N := N.shiftr x n.
(** Bitwise complement of a 32-bit word. *)
Definition not32 (x : N) : N := 4294967295 - w32 x.

Definition Ch (x y z : N) : N := N.lxor (N.land x y) (N.land (not32 x) z).
Definition Maj (x y z : N) : N :=
  N.lxor (N.lxor (N.land x y) (N.land x z)) (N.land y z).
Definition Sigma0 (x : N) : N := N.lxor (N.lxor (rotr 2 x) (rotr 13 x)) (rotr 22 x).
Definition Sigma1 (x : N) : N := N.lxor (N.lxor (rotr 6 x) (rotr 11 x)) (rotr 25 x).
Definition sigma0 (x : N) : N := N.lxor (N.lxor (rotr 7 x) (rotr 18 x)) (shr 3 x).
Definition sigma1 (x : N) : N := N.lxor (N.lxor (rotr 17 x) (rotr 19 x)) (shr 10 x).

(** The constants of FIPS 180-4 are the first 32 bits of the fractional
    parts of the cube roots (for [K]) and of the square roots (for the
    initial hash value) of the first primes. *)
Definition is_prime (n : N) : bool :=
  (2 <=? n)
  && forallb (fun d => negb (n mod N.of_nat d =? 0))
             (seq 2 (N.to_nat (N.sqrt n) - 1)).

Definition primes (count : nat) : list N :=
  firstn count (filter is_prime (map N.of_nat (seq 2 400))).

Fixpoint root3_aux (bits : nat) (r x : N) : N :=
  match bits with
  | O => r
  | S b =>
      let c := r + 2 ^ N.of_nat b in
      if c * c * c <=? x then root3_aux b c x else root3_aux b r x
  end.

(** The integer cube root of a number below [2 ^ 120]. *)
Definition root3 (x : N) : N := root3_aux 40 0 x.

Definition frac32_sqrt (p : N) : N := N.sqrt (p * 2 ^ 64) mod 2 ^ 32.
Definition frac32_cbrt (p : N) : N := root3 (p * 2 ^ 96) mod 2 ^ 32.

Definition K : list N := Eval vm_compute in map frac32_cbrt (primes 64).

(** The eight working variables, also the hash value. *)
Record hstate : Set := mkH {
  ha : N; hb : N; hc : N; hd_ : N; he : N; hf : N; hg : N; hh : N
}.

Definition H0 : hstate :=
  Eval vm_compute in
    let w := fun i => nth i (map frac32_sqrt (primes 8)) 0 in
    mkH (w 0%nat) (w 1%nat) (w 2%nat) (w 3%nat)
        (w 4%nat) (w 5%nat) (w 6%nat) (w 7%nat).

(** Padding: a 1 bit, zeros up to 56 modulo 64 bytes, the bit length on
    64 bits. *)
Definition pad (msg : list byte) : list byte :=
  let len := length msg in
  let zeros := ((64 - (len + 9) mod 64) mod 64)%nat in
  msg ++ [Byte.x80] ++ repeat Byte.x00 zeros
      ++ be_bytes 8 (8 * N.of_nat len).

(** The message schedule, most recent word first: [extend n w] adds [n]
    words to the reversed schedule [w]. *)
Fixpoint extend (n : nat) (w : list N) : list N :=
  match n with
  | O => w
  | S n' =>
      let x := add32 (add32 (sigma1 (nth 1 w 0)) (nth 6 w 0))
                     (add32 (sigma0 (nth 14 w 0)) (nth 15 w 0)) in
      extend n' (x :: w)
  end.

Definition schedule (block : list byte) : list N :=
  rev (extend 48 (rev (map be_value (blocks 4 block)))).

Definition round (s : hstate) (kw : N * N) : hstate :=
  let (k, w) := kw in
  let t1 := add32 (add32 (add32 (hh s) (Sigma1 (he s)))
                         (add32 (Ch (he s) (hf s) (hg s)) k)) w in
  let t2 := add32 (Sigma0 (ha s)) (Maj (ha s) (hb s) (hc s)) in
  mkH (add32 t1 t2) (ha s) (hb s) (hc s) (add32 (hd_ s) t1) (he s) (hf s) (hg s).

Definition compress (h : hstate) (block : list byte) : hstate :=
  let s := fold_left round (combine K (schedule block)) h in
  mkH (add32 (ha h) (ha s)) (add32 (hb h) (hb s)) (add32 (hc h) (hc s))
      (add32 (hd_ h) (hd_ s)) (add32 (he h) (he s)) (add32 (hf h) (hf s))
      (add32 (hg h) (hg s)) (add32 (hh h) (hh s)).

Definition digest_bytes (h : hstate) : list byte :=
  be_bytes 4 (ha h) ++ be_bytes 4 (hb h) ++ be_bytes 4 (hc h)
  ++ be_bytes 4 (hd_ h) ++ be_bytes 4 (he h) ++ be_bytes 4 (hf h)
  ++ be_bytes 4 (hg h) ++ be_bytes 4 (hh h).

Definition sha256 (msg : list byte) : list byte :=
  digest_bytes (fold_left compress (blocks 64 (pad msg)) H0).

End SHA256.

(* ================================================================== *)
(** * HMAC-SHA-256 (RFC 2104) and PBKDF2 (RFC 8018) *)
(* ================================================================== *)

Module PBKDF2.

Definition block_size : nat := 64.

(** The key as HMAC uses it: hashed when longer than a block, then
    filled with zero bytes up to the block size. *)
Definition hmac_key (key : list byte) : list byte :=
  let k := if (block_size <? length key)%nat then SHA256.sha256 key else key in
  k ++ repeat Byte.x00 (block_size - length k).

Definition hmac (key msg : list byte) : list byte :=
  let k := hmac_key key in
  let ipad := map (bxor Byte.x36) k in
  let opad := map (bxor Byte.x5c) k in
  SHA256.sha256 (opad ++ SHA256.sha256 (ipad ++ msg)).

(** The block function F of PBKDF2: [U_1 xor ... xor U_c]. *)
Definition F (password salt : list byte) (c : N) (i : N) : list byte :=
  let u1 := hmac password (salt ++ be_bytes 4 i) in
  snd (N.iter (c - 1)
         (fun ut : list byte * list byte =>
            let u := hmac password (fst ut) in (u, xor_bytes (snd ut) u))
         (u1, u1)).

Definition pbkdf2 (password salt : list byte) (c : N) (dkLen : nat)
  : list byte :=
  let nblocks := ((dkLen + 31) / 32)%nat in
  firstn dkLen
    (flat_map (fun i => F password salt c (N.of_nat i)) (seq 1 nblocks)).

End PBKDF2.

(* ================================================================== *)
(** * AES (FIPS 197) *)
(* ================================================================== *)

Module AES.

(** Multiplication by x in GF(2^8) modulo x^8 + x^4 + x^3 + x + 1. *)
Definition xtime (a : N) : N :=
  if a <? 128 then 2 * a else N.lxor ((2 * a) mod 256) 0x1b.

Fixpoint gmul_aux (n : nat) (a b : N) : N :=
  match n with
  | O => 0
  | S n' =>
      N.lxor (if N.odd b then a else 0) (gmul_aux n' (xtime a) (b / 2))
  end.

Definition gmul (a b : N) : N := gmul_aux 8 a b.

Fixpoint gpow (a : N) (n : nat) : N :=
  match n with
  | O => 1
  | S n' => gmul a (gpow a n')
  end.

Definition rotl8 (x n : N) : N :=
  N.lor ((N.shiftl x n) mod 256) (N.shiftr x (8 - n)).

(** The S-box: the multiplicative inverse (x^254, with 0 for 0) followed
    by the affine transformation. *)
Definition sbox_of (x : N) : N :=
  let b := gpow x 254 in
  N.lxor
    (N.lxor (N.lxor (N.lxor b (rotl8 b 1)) (rotl8 b 2))
       (N.lxor (rotl8 b 3) (rotl8 b 4)))
    0x63.

Definition sbox_table : list N :=
  Eval vm_compute in map (fun i => sbox_of (N.of_nat i)) (seq 0 256).

Definition sbox (x : N) : N := nth (N.to_nat x) sbox_table 0.

Definition xor_list (a b : list N) : list N :=
  map (fun p => N.lxor (fst p) (snd p)) (combine a b).

(** ** Key expansion: the key schedule as a list of 4-byte words *)

Definition sub_word (w : list N) : list N := map sbox w.

Definition rot_word (w : list N) : list N :=
  match w with
  | a :: t => t ++ [a]
  | [] => []
  end.

Definition rcon (j : nat) : list N := [gpow 2 (j - 1); 0; 0; 0].

(** [expand nk n i w]: [w] holds the words [w_0 .. w_(i-1)], most recent
    first; [n] more words are added. *)
Fixpoint expand (nk : nat) (n : nat) (i : nat) (w : list (list N))
  : list (list N) :=
  match n with
  | O => w
  | S n' =>
      let prev := nth 0 w [] in
      let temp :=
        if (i mod nk =? 0)%nat then
          xor_list (sub_word (rot_word prev)) (rcon (i / nk))
        else if ((6 <? nk) && (i mod nk =? 4))%nat then sub_word prev
        else prev in
      expand nk n' (S i) (xor_list (nth (nk - 1) w []) temp :: w)
  end.

Definition key_expansion (key : list byte) : list (list N) :=
  let nk := (length key / 4)%nat in
  let nr := (nk + 6)%nat in
  let w0 := map (map Byte.to_N) (blocks 4 key) in
  rev (expand nk (4 * (nr + 1) - nk) nk (rev w0)).

(** The round keys, 16 bytes each. *)
Definition round_keys (key : list byte) : list (list N) :=
  map (@concat N) (blocks 4 (key_expansion key)).

(** ** The cipher.  The state is kept in input order: byte [r + 4c] is
    row [r], column [c]. *)

Definition sub_bytes (s : list N) : list N := map sbox s.

Definition shift_rows (s : list N) : list N :=
  map (fun i => nth (i mod 4 + 4 * ((i / 4 + i mod 4) mod 4))%nat s 0)
      (seq 0 16).

Definition mix_column (a0 a1 a2 a3 : N) : list N :=
  [N.lxor (N.lxor (gmul 2 a0) (gmul 3 a1)) (N.lxor a2 a3);
   N.lxor (N.lxor a0 (gmul 2 a1)) (N.lxor (gmul 3 a2) a3);
   N.lxor (N.lxor a0 a1) (N.lxor (gmul 2 a2) (gmul 3 a3));
   N.lxor (N.lxor (gmul 3 a0) a1) (N.lxor a2 (gmul 2 a3))].

Definition mix_columns (s : list N) : list N :=
  flat_map
    (fun c : nat =>
       mix_column (nth (4 * c)%nat s 0) (nth (4 * c + 1)%nat s 0)
                  (nth (4 * c + 2)%nat s 0) (nth (4 * c + 3)%nat s 0))
    (seq 0 4).

Definition add_round_key (s rk : list N) : list N :=
  map (fun i => N.lxor (nth i s 0) (nth i rk 0)) (seq 0 16).

Definition middle_round (s rk : list N) : list N :=
  add_round_key (mix_columns (shift_rows (sub_bytes s))) rk.

Definition final_round (s rk : list N) : list N :=
  add_round_key (shift_rows (sub_bytes s)) rk.

(** Encryption of one 16-byte block under the given round keys. *)
Definition cipher (rks : list (list N)) (block : list byte) : list byte :=
  let s0 := add_round_key (map Byte.to_N block) (nth 0 rks []) in
  let middle := removelast (tl rks) in
  let s := fold_left middle_round middle s0 in
  map byte_of_N (final_round s (last rks [])).

Definition encrypt_block (key block : list byte) : list byte :=
  cipher (round_keys key) block.

End AES.

(* ================================================================== *)
(** * AES-GCM (NIST SP 800-38D) with a 128-bit tag and no additional
      data, as [crypto.subtle.encrypt({name: 'AES-GCM', iv}, key, data)] *)
(* ================================================================== *)

Module GCM.

Definition tag_length : nat := 16.

(** Multiplication in GF(2^128), blocks read as 128-bit numbers whose
    most significant bit is bit 0 of the standard. *)
Definition R : N := N.shiftl 0xE1 120.

Fixpoint mul_aux (n : nat) (x : N) (z v : N) : N :=
  match n with
  | O => z
  | S n' =>
      let z' := if N.testbit x (N.of_nat n') then N.lxor z v else z in
      let v' := if N.odd v then N.lxor (N.shiftr v 1) R else N.shiftr v 1 in
      mul_aux n' x z' v'
  end.

Definition mul (x y : N) : N := mul_aux 128 x 0 y.

Definition pad16 (bs : list byte) : list byte :=
  bs ++ repeat Byte.x00 ((16 - length bs mod 16) mod 16).

Definition ghash (h : N) (bs : list byte) : N :=
  fold_left (fun y x => mul (N.lxor y (be_value x)) h) (blocks 16 bs) 0.

Definition inc32 (cb : N) : N :=
  (cb / 4294967296) * 4294967296 + (cb + 1) mod 4294967296.

Fixpoint counter_blocks (n : nat) (cb : N) : list N :=
  match n with
  | O => []
  | S n' => cb :: counter_blocks n' (inc32 cb)
  end.

Definition keystream (rks : list (list N)) (icb : N) (n : nat) : list byte :=
  flat_map (fun cb => AES.cipher rks (be_bytes 16 cb)) (counter_blocks n icb).

(** GCTR: the data xored with the encrypted counter blocks. *)
Definition gctr (rks : list (list N)) (icb : N) (data : list byte)
  : list byte :=
  xor_bytes data (keystream rks icb ((length data + 15) / 16)).

Definition hash_subkey (rks : list (list N)) : N :=
  be_value (AES.cipher rks (repeat Byte.x00 16)).

Definition j0 (h : N) (iv : list byte) : N :=
  if (length iv =? 12)%nat then be_value (iv ++ [Byte.x00; Byte.x00; Byte.x00; Byte.x01])
  else ghash h (pad16 iv ++ be_bytes 8 0 ++ be_bytes 8 (8 * N.of_nat (length iv))).

(** The tag of a ciphertext, with empty additional data. *)
Definition tag (rks : list (list N)) (iv ct : list byte) : list byte :=
  let h := hash_subkey rks in
  let s := ghash h (pad16 ct ++ be_bytes 8 0
                      ++ be_bytes 8 (8 * N.of_nat (length ct))) in
  gctr rks (j0 h iv) (be_bytes 16 s).

Fixpoint bytes_eqb (a b : list byte) : bool :=
  match a, b with
  | [], [] => true
  | x :: a', y :: b' => Byte.eqb x y && bytes_eqb a' b'
  | _, _ => false
  end.

(** The result is the ciphertext followed by the tag. *)
Definition encrypt (key iv plaintext : list byte) : list byte :=
  let rks := AES.round_keys key in
  let ct := gctr rks (inc32 (j0 (hash_subkey rks) iv)) plaintext in
  ct ++ tag rks iv ct.

(** Decryption rejects with [OperationError] when the input is shorter
    than the tag and when the tag does not verify. *)
Definition decrypt (key iv data : list byte) : result (list byte) :=
  if (length data <? tag_length)%nat then Err OperationError
  else
    let rks := AES.round_keys key in
    let n := (length data - tag_length)%nat in
    let ct := firstn n data in
    let t := skipn n data in
    if bytes_eqb t (tag rks iv ct)
    then Ok (gctr rks (inc32 (j0 (hash_subkey rks) iv)) ct)
    else Err OperationError.

End GCM.

(* ================================================================== *)
(** * [src/lib/crypto.ts] *)
(* ================================================================== *)

(** The entropy source behind [crypto.getRandomValues]: an unbounded
    supply of bytes, consumed from the front. *)
Definition entropy := nat -> byte.

(** [crypto.getRandomValues(new Uint8Array(n))] *)
Definition getRandomValues (n : nat) (g : entropy) : list byte * entropy :=
  (map g (seq 0 n), fun i => g (n + i)%nat).

(** [String.fromCharCode(b)] *)
Definition fromCharCode (b : byte) : jsstring := [Byte.to_N b].

(** [Array.from(salt).map(b => String.fromCharCode(b)).join('')] *)
Definition salt_string (salt : list byte) : jsstring :=
  concat (map fromCharCode salt).

(** [dst.set(src, offset)] on a [Uint8Array], for a source that fits. *)
Definition uint8_set (dst src : list byte) (offset : nat) : list byte :=
  firstn offset dst ++ src ++ skipn (offset + length src) dst.

Definition ENCRYPTION_KEY_LENGTH : nat := 32.

Definition PBKDF2_ITERATIONS : N := 100000.

(** The raw bytes of the AES-GCM key ([length: 256]) that PBKDF2 derives
    from the UTF-8 bytes of the master key and of the salt string. *)
Definition deriveKey (masterKey salt : jsstring) : list byte :=
  let keyMaterial := UTF8.encode masterKey in
  PBKDF2.pbkdf2 keyMaterial (UTF8.encode salt) PBKDF2_ITERATIONS 32.

(** [encryptData], with the entropy source it draws from.  Limits of the
    host are outside the model: the number of arguments an engine accepts
    in [String.fromCharCode(...)], and the 2^39 - 256 bytes AES-GCM
    accepts as plaintext. *)
Definition encryptData (data masterKey : jsstring) (g : entropy)
  : result jsstring * entropy :=
  let (salt, g) := getRandomValues 16 g in
  let (iv, g) := getRandomValues 12 g in
  let key := deriveKey masterKey (salt_string salt) in
  let encryptedData := GCM.encrypt key iv (UTF8.encode data) in
  let combined :=
    repeat Byte.x00 (length salt + length iv + length encryptedData) in
  let combined := uint8_set combined salt 0 in
  let combined := uint8_set combined iv (length salt) in
  let combined := uint8_set combined encryptedData (length salt + length iv) in
  (Base64.btoa (fromCharCodes combined), g).

Definition decryptData (encryptedData masterKey : jsstring)
  : result jsstring :=
  let* binary := Base64.atob encryptedData in
  let combined := bytes_of_binary_string binary in
  let salt := slice 0 16 combined in
  let iv := slice 16 28 combined in
  let data := skipn 28 combined in
  let key := deriveKey masterKey (salt_string salt) in
  let* decryptedData := GCM.decrypt key iv data in
  Ok (UTF8.decode decryptedData).

Definition hex_digit (n : N) : N :=
  nth (N.to_nat n) (js "0123456789abcdef") 0.

(** [b.toString(16)] for an element of a [Uint8Array]. *)
Definition toString16 (b : byte) : jsstring :=
  let n := Byte.to_N b in
  if n <? 16 then [hex_digit n] else [hex_digit (n / 16); hex_digit (n mod 16)].

(** [s.padStart(n, '0')] *)
Definition padStart0 (n : nat) (s : jsstring) : jsstring :=
  repeat 48 (n - length s) ++ s.

Definition hashMasterKey (masterKey : jsstring) : jsstring :=
  let data := UTF8.encode masterKey in
  let hashArray := SHA256.sha256 data in
  concat (map (fun b => padStart0 2 (toString16 b)) hashArray).

(** JavaScript truthiness of a string that may be [null]. *)
Definition truthy (s : option jsstring) : bool :=
  match s with
  | Some (_ :: _) => true
  | _ => false
  end.

(* ================================================================== *)
(** * [src/context/AuthContext.tsx]: the session and its timer *)
(* ================================================================== *)

Module Session.

(** The state of [AuthProvider]; times are [Date.now()] milliseconds. *)
Record state : Type := mkState {
  userId : option jsstring;
  masterKey : option jsstring;
  lastActivity : Z
}.

Definition isAuthenticated (st : state) : bool :=
  truthy (userId st) && truthy (masterKey st).

Definition login (key : jsstring) (id : jsstring) (now : Z) (st : state)
  : state :=
  mkState (Some id) (Some key) now.

Definition logout (st : state) : state :=
  mkState None None (lastActivity st).

Definition handleActivity (now : Z) (st : state) : state :=
  mkState (userId st) (masterKey st) now.

(** The callback of [setInterval(..., 1000)].  The interval exists only
    while the session is authenticated. *)
Definition tick (now : Z) (st : state) : state :=
  if isAuthenticated st then
    let timeSinceLastActivity := (now - lastActivity st)%Z in
    if (30000 <? timeSinceLastActivity)%Z then logout st else st
  else st.

Inductive event : Type :=
| Login (key : jsstring) (id : jsstring) (now : Z)
| Logout
| Activity (now : Z)
| Tick (now : Z).

Definition step (st : state) (e : event) : state :=
  match e with
  | Login key id now => login key id now st
  | Logout => logout st
  | Activity now => handleActivity now st
  | Tick now => tick now st
  end.

Definition run (st : state) (es : list event) : state :=
  fold_left step es st.

(** The interval's firings: [n] ticks, one second apart, the first one a
    second after [start].  The effect that owns the interval depends on
    [isAuthenticated] and [lastActivity]: it is set up again at a login
    and at every activity, so the firings count from that event. *)
Fixpoint ticks (start : Z) (n : nat) : list event :=
  match n with
  | O => []
  | S n' => Tick (start + 1000)%Z :: ticks (start + 1000)%Z n'
  end.

End Session.

(* ================================================================== *)
(** * The Supabase project, as the client sees it *)
(* ================================================================== *)

(** [===] on strings. *)
Definition str_eqb (a b : jsstring) : bool :=
  if list_eq_dec N.eq_dec a b then true else false.

Module Supabase.

(** A row of table [users] ([src/types]: [User]). *)
Record User : Type := mkUser {
  id : jsstring;
  email : option jsstring;
  phone_number : option jsstring;
  master_key_hash : jsstring;
  recovery_code : option jsstring;
  created_at : jsstring;
  last_login : jsstring
}.

Inductive call : Type :=
| SignInWithPassword (email password : jsstring)
| SelectUserByHash (keyHash : jsstring).

(** The project: the rows of [users] (the migration makes [id] the
    primary key), the identity provider, the user of the client's current
    session ([auth.uid()]), and the requests received so far. *)
Record project : Type := mkProject {
  users : list User;
  accounts : jsstring -> jsstring -> option jsstring;
  session : option jsstring;
  calls : list call
}.

Record AuthResponse : Type := mkAuth {
  auth_user_id : option jsstring;      (* [data.user?.id] *)
  authError : bool
}.

Record QueryResponse : Type := mkQuery {
  data : option User;
  queryError : bool
}.

(** [supabase.auth.signInWithPassword({email, password})] *)
Definition signInWithPassword (email password : jsstring) (p : project)
  : AuthResponse * project :=
  let log := calls p ++ [SignInWithPassword email password] in
  match accounts p email password with
  | Some uid =>
      (mkAuth (Some uid) false,
       mkProject (users p) (accounts p) (Some uid) log)
  | None =>
      (mkAuth None true, mkProject (users p) (accounts p) (session p) log)
  end.

(** The rows of [users] a client may read.  The migration enables row
    level security with the single SELECT policy
    [TO authenticated USING (auth.uid() = id)]. *)
Definition visible_users (p : project) : list User :=
  match session p with
  | Some uid => filter (fun u => str_eqb (id u) uid) (users p)
  | None => []
  end.

(** [.maybeSingle()]: no row gives [null], one row gives the row, several
    rows give an error. *)
Definition maybeSingle (rows : list User) : QueryResponse :=
  match rows with
  | [] => mkQuery None false
  | [u] => mkQuery (Some u) false
  | _ => mkQuery None true
  end.

(** [supabase.from('users').select('id, master_key_hash')
      .eq('master_key_hash', keyHash).maybeSingle()] *)
Definition selectUserByHash (keyHash : jsstring) (p : project)
  : QueryResponse * project :=
  (maybeSingle
     (filter (fun u => str_eqb (master_key_hash u) keyHash) (visible_users p)),
   mkProject (users p) (accounts p) (session p)
             (calls p ++ [SelectUserByHash keyHash])).

End Supabase.

(* ================================================================== *)
(** * [src/context/AuthContext.tsx]: [verifyMasterKey] *)
(* ================================================================== *)

Record VerifyResult : Type := mkVerify {
  success : bool;
  verifiedUserId : option jsstring
}.

Definition verifyMasterKey (key : jsstring) (p : Supabase.project)
  : VerifyResult * Supabase.project :=
  let (auth, p) :=
    Supabase.signInWithPassword (js "user@securevault.local") key p in
  if Supabase.authError auth then
    let keyHash := hashMasterKey key in
    let (q, p) := Supabase.selectUserByHash keyHash p in
    match Supabase.queryError q, Supabase.data q with
    | false, Some users => (mkVerify true (Some (Supabase.id users)), p)
    | _, _ => (mkVerify false None, p)
    end
  else (mkVerify true (Supabase.auth_user_id auth), p).

(* ================================================================== *)
(** * [src/components/Dashboard.tsx]: [loadData] *)
(* ================================================================== *)

Module Dashboard.

Record Category : Type := mkCategory {
  cat_id : jsstring;
  cat_user_id : jsstring;
  cat_name : jsstring;
  cat_color : jsstring
}.


Record DecryptedPassword : Type := mkDecrypted {
  d_id : jsstring;
  d_user_id : jsstring;
  d_category_id : option jsstring;
  d_title : jsstring;
  d_username : jsstring;
  d_password : jsstring;
  d_url : option jsstring;
  d_notes : option jsstring;
  d_password_type : jsstring;
  d_created_at : jsstring;
  d_updated_at : jsstring;
  d_category : option Category
}.





Record state : Type := mkDash {
  passwords : list DecryptedPassword;
  categories : list Category;
  loading : bool
}.


End Dashboard.

(* ================================================================== *)
(** * [src/context/AuthContext.tsx]: [createAccount] *)
(* ================================================================== *)

Module Account.

(** [n.toString()] for a non-negative integer, as in a template string. *)
Fixpoint digits (fuel : nat) (n : N) (acc : jsstring) : jsstring :=
  match fuel with
  | O => acc
  | S fuel' =>
      let acc' := (48 + n mod 10) :: acc in
      if n / 10 =? 0 then acc' else digits fuel' (n / 10) acc'
  end.

Definition decimal (n : N) : jsstring :=
  digits (S (N.to_nat (N.log2 n))) n [].

(** The answer of [supabase.auth.signUp]: the id of [data.user] if there
    is one, whether [error] is set, and whether the sign-up opened a
    session for the new user (it does when the project does not ask for
    a confirmation of the address). *)
Record SignUpResponse : Type := mkSignUp {
  su_user_id : option jsstring;
  su_error : bool;
  su_session : bool
}.

(** [supabase.auth.signUp({email, password})].  A sign-up that opens a
    session has registered the pair with the identity provider and made
    the new user the user of the client; one that waits for the address
    to be confirmed leaves both as they were. *)
Definition signUp (email password : jsstring) (su : SignUpResponse)
    (p : Supabase.project) : Supabase.project :=
  match su_error su, su_user_id su with
  | false, Some uid =>
      if su_session su then
        Supabase.mkProject
          (Supabase.users p)
          (fun e pw =>
             if str_eqb e email && str_eqb pw password then Some uid
             else Supabase.accounts p e pw)
          (Some uid)
          (Supabase.calls p)
      else p
  | _, _ => p
  end.

(** Equality of two column values that are not [NULL]. *)
Definition same_value (a b : option jsstring) : bool :=
  match a, b with
  | Some x, Some y => str_eqb x y
  | _, _ => false
  end.

(** The constraints of table [users] in the migration: [id] is the
    primary key, [email] and [phone_number] are [UNIQUE]. *)
Definition violates (row : Supabase.User) (rows : list Supabase.User)
  : bool :=
  existsb
    (fun u =>
       str_eqb (Supabase.id u) (Supabase.id row)
       || same_value (Supabase.email u) (Supabase.email row)
       || same_value (Supabase.phone_number u) (Supabase.phone_number row))
    rows.

(** [supabase.from('users').insert(row)]: the policy "Anyone can create
    user" lets every client insert; the answer is whether [error] is
    set. *)
Definition insertUser (row : Supabase.User) (p : Supabase.project)
  : bool * Supabase.project :=
  if violates row (Supabase.users p) then (true, p)
  else
    (false,
     Supabase.mkProject (Supabase.users p ++ [row]) (Supabase.accounts p)
                        (Supabase.session p) (Supabase.calls p)).

(** [value || null] *)
Definition orNull (value : option jsstring) : option jsstring :=
  if truthy value then value else None.

(** The two [throw new Error(...)] of [createAccount]. *)
Inductive thrown : Set :=
| SignUpFailed
| InsertFailed.

(** The address given to [signUp]:
    [email || `user_${Date.now()}@securevault.local`]. *)
Definition signUpEmail (email : option jsstring) (now : N) : jsstring :=
  match orNull email with
  | Some e => e
  | None => js "user_" ++ decimal now ++ js "@securevault.local"
  end.

(** [createAccount(masterKey, email, phoneNumber)].  [recoveryCode] is the
    text made from [Math.random()], [now] is [Date.now()], [dbNow] the
    default the database gives [created_at] and [last_login], [su] the
    answer of the sign-up. *)
Definition createAccount (masterKey : jsstring)
    (email phoneNumber : option jsstring)
    (recoveryCode : jsstring) (now : N) (dbNow : jsstring)
    (su : SignUpResponse) (p : Supabase.project)
  : (thrown + jsstring) * Supabase.project :=
  let keyHash := hashMasterKey masterKey in
  let p := signUp (signUpEmail email now) masterKey su p in
  match su_error su, su_user_id su with
  | false, Some uid =>
      let row :=
        Supabase.mkUser uid (orNull email) (orNull phoneNumber) keyHash
                        (Some recoveryCode) dbNow dbNow in
      let (insertError, p) := insertUser row p in
      if insertError then (inl InsertFailed, p) else (inr uid, p)
  | _, _ => (inl SignUpFailed, p)
  end.

End Account.

(* ================================================================== *)
(** * [src/components/Login.tsx]: [handleLogin], [handleCreateAccount] *)
(* ================================================================== *)

Module LoginForm.

(** The texts [setError] is given. *)
Inductive message : Set :=
| NoError                    (* [''] *)
| InvalidMasterKey           (* ['Invalid master key'] *)
| KeysDoNotMatch             (* ['Master keys do not match'] *)
| KeyTooShort                (* ['Master key must be at least 8 characters'] *)
| CreateFailed (e : Account.thrown).  (* the message of the thrown error *)

Record form : Type := mkForm {
  masterKey : jsstring;
  confirmKey : jsstring;
  email : jsstring;
  phoneNumber : jsstring;
  error : message;
  loading : bool
}.

Definition setError (m : message) (f : form) : form :=
  mkForm (masterKey f) (confirmKey f) (email f) (phoneNumber f) m (loading f).

Definition setLoading (b : bool) (f : form) : form :=
  mkForm (masterKey f) (confirmKey f) (email f) (phoneNumber f) (error f) b.


(** [handleLogin]: [now] is the [Date.now()] that [login] reads. *)
Definition handleLogin (now : Z) (f : form) (s : Session.state)
    (p : Supabase.project) : form * Session.state * Supabase.project :=
  let f := setLoading true (setError NoError f) in
  let (result, p) := verifyMasterKey (masterKey f) p in
  match verifiedUserId result with
  | Some uid =>
      if success result && truthy (verifiedUserId result)
      then (setLoading false f, Session.login (masterKey f) uid now s, p)
      else (setLoading false (setError InvalidMasterKey f), s, p)
  | None => (setLoading false (setError InvalidMasterKey f), s, p)
  end.


End LoginForm.

(* ================================================================== *)
(** * The password form: [handleSubmit] *)
(* ================================================================== *)

Module PasswordForm.

Record form : Type := mkForm {
  title : jsstring;
  username : jsstring;
  passwordValue : jsstring;
  url : jsstring;
  notes : jsstring;
  categoryId : jsstring;
  passwordType : jsstring
}.



(** The object [data] sent to table [passwords]. *)
Record payload : Type := mkPayload {
  p_user_id : jsstring;
  p_title : jsstring;
  p_username : jsstring;
  p_password : jsstring;
  p_url : option jsstring;
  p_notes : option jsstring;
  p_category_id : option jsstring;
  p_password_type : jsstring;
  p_updated_at : jsstring
}.

Inductive request : Type :=
| Update (id : jsstring) (data : payload)
| Insert (data : payload).





Definition payload_of (r : request) : payload :=
  match r with
  | Update _ data => data
  | Insert data => data
  end.

End PasswordForm.

(* ================================================================== *)
(** * [src/components/Dashboard.tsx]: [handleDeletePassword] *)
(* ================================================================== *)

Module DashboardActions.

(** [handleDeletePassword(id)]: [confirmed] is the answer of [confirm].
    The result is the id of the row whose deletion is requested, if any,
    the new [passwords] and the new [selectedPassword]; the answer of
    the store, [storeError], is not looked at. *)
Definition handleDeletePassword (confirmed storeError : bool)
    (id : jsstring) (passwords : list Dashboard.DecryptedPassword)
    (selectedPassword : option Dashboard.DecryptedPassword)
  : option jsstring * list Dashboard.DecryptedPassword
    * option Dashboard.DecryptedPassword :=
  if confirmed then
    (Some id,
     filter (fun p => negb (str_eqb (Dashboard.d_id p) id)) passwords,
     None)
  else (None, passwords, selectedPassword).

End DashboardActions.

(* ================================================================== *)
(** * [src/components/CategoryManager.tsx] *)
(* ================================================================== *)

Module CategoryManager.

(** The code points [String.prototype.trim] removes: the white space and
    the line terminators of ECMAScript. *)
Definition is_white_space (c : N) : bool :=
  ((9 <=? c) && (c <=? 13)) || (c =? 0x20) || (c =? 0xA0) || (c =? 0x1680)
  || ((0x2000 <=? c) && (c <=? 0x200A)) || (c =? 0x2028) || (c =? 0x2029)
  || (c =? 0x202F) || (c =? 0x205F) || (c =? 0x3000) || (c =? 0xFEFF).

Fixpoint trimStart (s : jsstring) : jsstring :=
  match s with
  | c :: t => if is_white_space c then trimStart t else s
  | [] => []
  end.

Definition trimEnd (s : jsstring) : jsstring := rev (trimStart (rev s)).

Definition trim (s : jsstring) : jsstring := trimEnd (trimStart s).

Record form : Type := mkForm {
  newCategoryName : jsstring;
  newCategoryColor : jsstring;
  editingId : option jsstring;
  editName : jsstring;
  editColor : jsstring;
  loading : bool
}.

Inductive request : Type :=
| InsertCategory (user_id name color : jsstring)
| UpdateCategory (id name color : jsstring)
| DeleteCategory (id : jsstring).

Definition default_color : jsstring := js "#06b6d4".

(** [handleCreateCategory]: the request sent, if any, and the form
    after it; a request is followed by [onUpdate()]. *)
Definition handleCreateCategory (userId : option jsstring) (f : form)
  : option request * form :=
  match userId with
  | Some uid =>
      if truthy userId && truthy (Some (trim (newCategoryName f))) then
        (Some (InsertCategory uid (trim (newCategoryName f))
                              (newCategoryColor f)),
         mkForm [] default_color (editingId f) (editName f) (editColor f)
                false)
      else (None, f)
  | None => (None, f)
  end.

(** [handleUpdateCategory(id)] *)
Definition handleUpdateCategory (id : jsstring) (f : form)
  : option request * form :=
  if truthy (Some (trim (editName f))) then
    (Some (UpdateCategory id (trim (editName f)) (editColor f)),
     mkForm (newCategoryName f) (newCategoryColor f) None (editName f)
            (editColor f) false)
  else (None, f).

(** [handleDeleteCategory(id)]: [confirmed] is the answer of [confirm]. *)
Definition handleDeleteCategory (confirmed : bool) (id : jsstring) (f : form)
  : option request * form :=
  if confirmed then
    (Some (DeleteCategory id),
     mkForm (newCategoryName f) (newCategoryColor f) (editingId f)
            (editName f) (editColor f) false)
  else (None, f).

(** [startEditing(category)] *)
Definition startEditing (category : Dashboard.Category) (f : form) : form :=
  mkForm (newCategoryName f) (newCategoryColor f)
         (Some (Dashboard.cat_id category)) (Dashboard.cat_name category)
         (Dashboard.cat_color category) (loading f).

End CategoryManager.

(* ================================================================== *)
(** * Definitions used to state the properties *)
(* ================================================================== *)

(** Linear arithmetic with division and remainder by constants. *)
Ltac dlia := zify; Z.to_euclidean_division_equations; lia.



(** A Unicode scalar value. *)
Definition scalar (cp : N) : Prop :=
  cp < 0x110000 /\ ~ (0xD800 <= cp <= 0xDFFF).

Definition is_byte (n : N) : Prop := n < 256.
Definition is_sextet (n : N) : Prop := n < 64.

(** The sextets of a byte list, before they are written as characters. *)
Fixpoint sextets_of_bytes (bs : list N) : list N :=
  match bs with
  | [] => []
  | [a] => [a / 4; (a mod 4) * 16]
  | [a; b] => [a / 4; (a mod 4) * 16 + b / 16; (b mod 16) * 4]
  | a :: b :: c :: t =>
      a / 4 :: (a mod 4) * 16 + b / 16 :: (b mod 16) * 4 + c / 64 :: c mod 64
      :: sextets_of_bytes t
  end.

Definition padding (bs : list N) : jsstring :=
  repeat Base64.pad_char ((3 - length bs mod 3) mod 3).

(** A code unit that is neither white space nor the padding sign. *)
Definition plain (c : N) : Prop :=
  Base64.is_ascii_whitespace c = false /\ (c =? Base64.pad_char) = false.

(** A lowercase hexadecimal digit. *)
Definition is_lower_hex (c : N) : Prop :=
  48 <= c <= 57 \/ 97 <= c <= 102.

(** The value of a hexadecimal digit of either case. *)
Definition hex_value (c : N) : option N :=
  if (48 <=? c) && (c <=? 57) then Some (c - 48)
  else if (97 <=? c) && (c <=? 102) then Some (c - 97 + 10)
  else if (65 <=? c) && (c <=? 70) then Some (c - 65 + 10)
  else None.

(** Reading a string of two-digit hexadecimal numbers. *)
Fixpoint hex_decode (s : jsstring) : option (list byte) :=
  match s with
  | [] => Some []
  | h :: l :: t =>
      match hex_value h, hex_value l, hex_decode t with
      | Some a, Some b, Some r => Some (byte_of_N (16 * a + b) :: r)
      | _, _, _ => None
      end
  | _ => None
  end.

(** Two hexadecimal digits for each byte. *)
Definition hex_encode (bs : list byte) : jsstring :=
  concat (map (fun b => padStart0 2 (toString16 b)) bs).

(** The parts of the envelope [encryptData] builds from the entropy [g]. *)
Definition salt_of (g : entropy) : list byte := fst (getRandomValues 16 g).
Definition iv_of (g : entropy) : list byte :=
  fst (getRandomValues 12 (snd (getRandomValues 16 g))).
Definition body_of (data masterKey : jsstring) (g : entropy) : list byte :=
  GCM.encrypt (deriveKey masterKey (salt_string (salt_of g))) (iv_of g)
              (UTF8.encode data).
Definition envelope_bytes (data masterKey : jsstring) (g : entropy)
  : list byte :=
  salt_of g ++ iv_of g ++ body_of data masterKey g.

(** An entropy source for the examples. *)
Definition sample_entropy : entropy :=
  fun i => byte_of_N (N.of_nat (37 * i + 11)).






(** A project with one account, whose owner has a session; the identity
    provider knows no password for the address [verifyMasterKey] uses. *)
Definition sample_user : Supabase.User :=
  Supabase.mkUser (js "user-1") None None
                  (hashMasterKey (js "correct-master-key")) None
                  (js "2025-11-03") (js "2025-11-03").

Definition sample_project : Supabase.project :=
  Supabase.mkProject [sample_user] (fun _ _ => None) (Some (js "user-1")) [].


(** The address [verifyMasterKey] signs in with. *)
Definition login_email : jsstring := js "user@securevault.local".

(** Bytes written in hexadecimal; the text of an ASCII string. *)
Definition hex (s : string) : list byte :=
  match hex_decode (js s) with
  | Some bs => bs
  | None => []
  end.

Definition ascii_bytes (s : string) : list byte := map byte_of_N (js s).







(** The state of [AuthProvider] when it is mounted at time [now]. *)
Definition initial_session (now : Z) : Session.state :=
  Session.mkState None None now.

(** The time of the last login or activity among the events, [t] if
    there is none. *)
Definition last_active (t : Z) (es : list Session.event) : Z :=
  fold_left
    (fun t e =>
       match e with
       | Session.Login _ _ now => now
       | Session.Activity now => now
       | _ => t
       end) es t.

(** An event that is neither a login nor a logout. *)
Definition keeps_session (e : Session.event) : bool :=
  match e with
  | Session.Login _ _ _ => false
  | Session.Logout => false
  | _ => true
  end.




(** The row [createAccount] inserts for the user [uid]. *)
Definition new_user (uid masterKey : jsstring)
    (email phoneNumber : option jsstring) (recoveryCode dbNow : jsstring)
  : Supabase.User :=
  Supabase.mkUser uid (Account.orNull email) (Account.orNull phoneNumber)
                  (hashMasterKey masterKey) (Some recoveryCode) dbNow dbNow.

(** A project with no user, no account and no session. *)
Definition empty_project : Supabase.project :=
  Supabase.mkProject [] (fun _ _ => None) None [].

(** The login form with the same text in both key fields. *)
Definition sample_form (key email : string) : LoginForm.form :=
  LoginForm.mkForm (js key) (js key) (js email) [] LoginForm.NoError false.





(** What the UTF-8 decoder has read of an unfinished sequence can only
    be completed to a scalar value: whatever byte within its bounds
    comes next, and whatever the bytes after it contribute. *)
Definition decoder_ok (st : UTF8.dstate) : Prop :=
  UTF8.d_needed st = 0
  \/ (UTF8.d_seen st < UTF8.d_needed st
      /\ forall b r,
           UTF8.d_lower st <= b <= UTF8.d_upper st ->
           r < 64 ^ (UTF8.d_needed st - UTF8.d_seen st - 1) ->
           scalar ((UTF8.d_cp st * 64 + b mod 64)
                   * 64 ^ (UTF8.d_needed st - UTF8.d_seen st - 1) + r)).






(* ================================================================== *)
(** * Known-answer tests of the primitives *)
(* ================================================================== *)

(** FIPS 180-4, appendix B.1. *)
Example sha256_abc :
  SHA256.sha256 (ascii_bytes "abc")
  = hex "ba7816bf8f01cfea414140de5dae2223b00361a396177a9cb410ff61f20015ad".
Proof. vm_compute. reflexivity. Qed.

(** A message of two blocks (FIPS 180-4, appendix B.2). *)
Example sha256_two_blocks :
  SHA256.sha256
    (ascii_bytes "abcdbcdecdefdefgefghfghighijhijkijkljklmklmnlmnomnopnopq")
  = hex "248d6a61d20638b8e5c026930c3e6039a33ce45964ff2167f6ecedd419db06c1".
Proof. vm_compute. reflexivity. Qed.

(** RFC 4231, test case 2. *)
Example hmac_rfc4231 :
  PBKDF2.hmac (ascii_bytes "Jefe") (ascii_bytes "what do ya want for nothing?")
  = hex "5bdcc146bf60754e6a042426089575c75a003f089d2739839dec58b964ec3843".
Proof. vm_compute. reflexivity. Qed.

(** PBKDF2-HMAC-SHA-256 of "password" and "salt", two iterations. *)
Example pbkdf2_two_iterations :
  PBKDF2.pbkdf2 (ascii_bytes "password") (ascii_bytes "salt") 2 32
  = hex "ae4d0c95af6b46d32d0adff928f06dd02a303f8ef3c251dfd6e2d85a95474c43".
Proof. vm_compute. reflexivity. Qed.

(** FIPS 197, appendix C.3 (AES-256). *)
Example aes256_fips197 :
  AES.encrypt_block
    (hex "000102030405060708090a0b0c0d0e0f101112131415161718191a1b1c1d1e1f")
    (hex "00112233445566778899aabbccddeeff")
  = hex "8ea2b7ca516745bfeafc49904b496089".
Proof. vm_compute. reflexivity. Qed.

(** The GCM specification, test cases 13 and 14 (AES-256, zero key and
    nonce): ciphertext followed by tag. *)
Example gcm_test_case_13 :
  GCM.encrypt (repeat Byte.x00 32) (repeat Byte.x00 12) []
  = hex "530f8afbc74536b9a963b4f1c4cb738b".
Proof. vm_compute. reflexivity. Qed.

Example gcm_test_case_14 :
  GCM.encrypt (repeat Byte.x00 32) (repeat Byte.x00 12) (repeat Byte.x00 16)
  = hex "cea7403d4d606b6e074ec5d3baf39d18d0d1c8a799996bf0265b98b5d48ab919".
Proof. vm_compute. reflexivity. Qed.

(** [btoa] and [atob] on a short text; [atob] takes unpadded input and
    white space, and refuses a lone padding sign. *)
Example btoa_hello : Base64.btoa (js "hello") = Ok (js "aGVsbG8=").
Proof. reflexivity. Qed.

Example atob_forgiving :
  Base64.atob (js "aGVs bG8") = Ok (js "hello")
  /\ Base64.atob (js "aGVsbG8==") = Err InvalidCharacterError.
Proof. split; reflexivity. Qed.

(** [TextEncoder] writes U+FFFD for an unpaired surrogate; [TextDecoder]
    drops a leading U+FEFF. *)
Example encode_lone_surrogate :
  UTF8.encode [0x61; 0xD800] = hex "61efbfbd".
Proof. reflexivity. Qed.

Example decode_drops_bom :
  UTF8.decode (UTF8.encode [0xFEFF; 0x61]) = [0x61].
Proof. reflexivity. Qed.

(* ================================================================== *)
(** * Bytes *)
(* ================================================================== *)

Lemma to_N_lt (b : byte) : Byte.to_N b < 256.
Proof. pose proof (Byte.to_N_bounded b). lia. Qed.

Lemma to_N_byte_of_N (n : N) : n < 256 -> Byte.to_N (byte_of_N n) = n.
Proof.
  intros H. unfold byte_of_N. rewrite N.mod_small by exact H.
  destruct (Byte.of_N n) as [b|] eqn:E.
  - now apply Byte.to_of_N.
  - apply Byte.of_N_None_iff in E. lia.
Qed.

Lemma byte_of_N_to_N (b : byte) : byte_of_N (Byte.to_N b) = b.
Proof.
  unfold byte_of_N. rewrite N.mod_small by apply to_N_lt.
  now rewrite Byte.of_to_N.
Qed.

Lemma truthy_some (s : jsstring) : s <> [] -> truthy (Some s) = true.
Proof. destruct s; [congruence|reflexivity]. Qed.

Lemma lxor_byte a b : a < 256 -> b < 256 -> N.lxor a b < 256.
Proof.
  intros Ha Hb.
  destruct (N.eq_dec (N.lxor a b) 0) as [E|E]; [rewrite E; lia|].
  change 256 with (2 ^ 8). apply N.log2_lt_pow2; [lia|].
  eapply N.le_lt_trans; [apply N.log2_lxor|].
  apply N.max_lub_lt.
  - destruct (N.eq_dec a 0) as [->|]; [cbn; lia|].
    apply N.log2_lt_pow2; [lia|exact Ha].
  - destruct (N.eq_dec b 0) as [->|]; [cbn; lia|].
    apply N.log2_lt_pow2; [lia|exact Hb].
Qed.

Lemma bxor_involutive a b : bxor (bxor a b) b = a.
Proof.
  unfold bxor.
  rewrite to_N_byte_of_N by (apply lxor_byte; apply to_N_lt).
  rewrite N.lxor_assoc, N.lxor_nilpotent, N.lxor_0_r.
  apply byte_of_N_to_N.
Qed.

Lemma xor_bytes_length d p :
  length (xor_bytes d p) = Nat.min (length d) (length p).
Proof.
  revert p. induction d as [|x d IH]; intros [|y p]; cbn; auto.
Qed.

Lemma xor_bytes_involutive d p :
  (length d <= length p)%nat -> xor_bytes (xor_bytes d p) p = d.
Proof.
  revert p. induction d as [|x d IH]; intros [|y p] H; cbn in *;
    try reflexivity; try lia.
  rewrite bxor_involutive, IH by lia. reflexivity.
Qed.

Lemma be_bytes_length n x : length (be_bytes n x) = n.
Proof.
  revert x. induction n as [|n IH]; intros x; [reflexivity|].
  cbn [be_bytes]. rewrite length_app, IH. cbn. lia.
Qed.

(** Induction on a list, three elements at a time. *)
Lemma list_ind3 {A} (P : list A -> Prop) :
  P [] -> (forall a, P [a]) -> (forall a b, P [a; b]) ->
  (forall a b c t, P t -> P (a :: b :: c :: t)) ->
  forall l, P l.
Proof.
  intros H0 H1 H2 H3.
  fix IH 1.
  intros [|a [|b [|c t]]];
    [exact H0 | apply H1 | apply H2 | apply H3, IH].
Qed.

(* ================================================================== *)
(** * [TextDecoder] after [TextEncoder] *)
(* ================================================================== *)

Module UTF8Facts.
Import UTF8.











Lemma is_high_spec c : is_high c = true <-> 0xD800 <= c <= 0xDBFF.
Proof. unfold is_high. rewrite andb_true_iff, !N.leb_le. tauto. Qed.

Lemma is_low_spec c : is_low c = true <-> 0xDC00 <= c <= 0xDFFF.
Proof. unfold is_low. rewrite andb_true_iff, !N.leb_le. tauto. Qed.

Lemma is_high_false c : is_high c = false <-> ~ (0xD800 <= c <= 0xDBFF).
Proof. rewrite <- is_high_spec. now destruct (is_high c). Qed.

Lemma is_low_false c : is_low c = false <-> ~ (0xDC00 <= c <= 0xDFFF).
Proof. rewrite <- is_low_spec. now destruct (is_low c). Qed.







End UTF8Facts.

(* ================================================================== *)
(** * What [TextDecoder] can return *)
(* ================================================================== *)

Module DecoderFacts.
Import UTF8 UTF8Facts.

Lemma scalar_replacement : scalar 0xFFFD.
Proof. unfold scalar. lia. Qed.

Lemma handle_lead_ok b :
  b < 256 ->
  Forall scalar (fst (handle_lead b)) /\ decoder_ok (snd (handle_lead b)).
Proof.
  intros Hb. unfold handle_lead.
  destruct (N.leb_spec b 0x7F) as [H1|H1].
  { cbn [fst snd]. split; [|now left].
    constructor; [unfold scalar; lia|constructor]. }
  destruct (N.leb_spec 0xC2 b) as [H2|H2];
    destruct (N.leb_spec b 0xDF) as [H3|H3]; cbn [andb].
  { cbn [fst snd]. split; [constructor|]. right.
    cbn [d_seen d_needed d_lower d_upper d_cp]. split; [lia|].
    change (64 ^ (1 - 0 - 1)) with 1. intros c r Hc Hr. unfold scalar. dlia. }
  all: destruct (N.leb_spec 0xE0 b) as [H4|H4];
    destruct (N.leb_spec b 0xEF) as [H5|H5]; cbn [andb]; try lia.
  all: try (cbn [fst snd]; split; [constructor|]; right;
            cbn [d_seen d_needed d_lower d_upper d_cp]; split; [lia|];
            change (64 ^ (2 - 0 - 1)) with 64; intros c r Hc Hr;
            destruct (N.eqb_spec b 0xE0); destruct (N.eqb_spec b 0xED);
            unfold scalar; dlia).
  all: destruct (N.leb_spec 0xF0 b) as [H6|H6];
    destruct (N.leb_spec b 0xF4) as [H7|H7]; cbn [andb]; try lia.
  all: try (cbn [fst snd]; split; [constructor|]; right;
            cbn [d_seen d_needed d_lower d_upper d_cp]; split; [lia|];
            change (64 ^ (3 - 0 - 1)) with 4096; intros c r Hc Hr;
            destruct (N.eqb_spec b 0xF0); destruct (N.eqb_spec b 0xF4);
            unfold scalar; dlia).
  all: cbn [fst snd]; split; [|now left];
    constructor; [apply scalar_replacement|constructor].
Qed.

(** One step of the decoder writes scalar values only. *)
Lemma handle_ok st b :
  decoder_ok st -> b < 256 ->
  Forall scalar (fst (handle st b)) /\ decoder_ok (snd (handle st b)).
Proof.
  intros Hst Hb. unfold handle.
  destruct (N.eqb_spec (d_needed st) 0) as [E|E];
    [now apply handle_lead_ok|].
  destruct Hst as [Hst|[Hseen Hinv]]; [contradiction|].
  destruct ((b <? d_lower st) || (d_upper st <? b)) eqn:Hr.
  - destruct (handle_lead_ok b Hb) as [H1 H2].
    destruct (handle_lead b) as [out st']. cbn [fst snd] in *.
    split; [|exact H2]. constructor; [apply scalar_replacement|exact H1].
  - apply orb_false_iff in Hr. destruct Hr as [Hlo Hhi].
    apply N.ltb_ge in Hlo. apply N.ltb_ge in Hhi.
    destruct (N.eqb_spec (d_seen st + 1) (d_needed st)) as [Hlast|Hmore];
      cbn [fst snd].
    + split; [|now left]. constructor; [|constructor].
      specialize (Hinv b 0 (conj Hlo Hhi)).
      replace (d_needed st - d_seen st - 1) with 0 in Hinv by lia.
      change (64 ^ 0) with 1 in Hinv.
      rewrite N.mul_1_r, N.add_0_r in Hinv. apply Hinv. lia.
    + split; [constructor|]. right.
      cbn [d_seen d_needed d_lower d_upper d_cp]. split; [lia|].
      intros c r Hc Hrr.
      set (e := d_needed st - (d_seen st + 1) - 1) in *.
      assert (He : d_needed st - d_seen st - 1 = N.succ e) by (subst e; lia).
      rewrite He, N.pow_succ_r' in Hinv.
      specialize (Hinv b (c mod 64 * 64 ^ e + r) (conj Hlo Hhi)).
      replace ((d_cp st * 64 + b mod 64) * (64 * 64 ^ e)
               + (c mod 64 * 64 ^ e + r))
        with (((d_cp st * 64 + b mod 64) * 64 + c mod 64) * 64 ^ e + r)
        in Hinv by ring.
      apply Hinv.
      assert (Hc64 : c mod 64 < 64) by (apply N.mod_lt; discriminate).
      nia.
Qed.

Lemma decode_loop_scalar bs :
  forall st, decoder_ok st -> Forall scalar (decode_loop st bs).
Proof.
  induction bs as [|b t IH]; intros st Hst.
  - cbn [decode_loop]. destruct (d_needed st =? 0); [constructor|].
    constructor; [apply scalar_replacement|constructor].
  - cbn [decode_loop].
    destruct (handle_ok st (Byte.to_N b) Hst (to_N_lt b)) as [H1 H2].
    destruct (handle st (Byte.to_N b)) as [out st']. cbn [fst snd] in *.
    apply Forall_app. split; [exact H1|now apply IH].
Qed.

Lemma utf16_well_formed cps :
  Forall scalar cps -> well_formed (flat_map utf16_of_cp cps) = true.
Proof.
  induction 1 as [|cp cps [Hlt Hns] _ IH]; [reflexivity|].
  cbn [flat_map]. unfold utf16_of_cp.
  destruct (N.ltb_spec cp 0x10000) as [H|H].
  - cbn [app well_formed].
    rewrite (proj2 (is_high_false cp)) by lia.
    rewrite (proj2 (is_low_false cp)) by lia.
    rewrite (proj2 (N.ltb_lt cp 65536)) by lia. exact IH.
  - cbn [app well_formed].
    rewrite (proj2 (is_high_spec _)) by dlia.
    rewrite (proj2 (is_low_spec _)) by dlia. exact IH.
Qed.

Lemma strip_bom_scalar cps : Forall scalar cps -> Forall scalar (strip_bom cps).
Proof.
  intros H. unfold strip_bom. destruct H as [|cp cps Hcp Hcps]; [constructor|].
  destruct (N.eq_dec cp 0xFEFF) as [->|Hne]; [exact Hcps|].
  replace (match cp with
           | 0xFEFF => cps
           | _ => cp :: cps
           end) with (cp :: cps); [now constructor|].
  do 17 (try (destruct cp as [|cp]; [reflexivity|]);
         try (destruct cp as [cp|cp|]; try reflexivity)).
  all: try reflexivity. all: contradiction.
Qed.

(** Whatever the bytes, [TextDecoder] returns well-formed UTF-16. *)
Lemma decode_well_formed bs : well_formed (decode bs) = true.
Proof.
  unfold decode. apply utf16_well_formed, strip_bom_scalar.
  apply decode_loop_scalar. now left.
Qed.


End DecoderFacts.

(* ================================================================== *)
(** * [atob] after [btoa] *)
(* ================================================================== *)

Module Base64Facts.
Import Base64.

Lemma encode_bytes_split bs :
  encode_bytes bs = map char_of_sextet (sextets_of_bytes bs) ++ padding bs.
Proof.
  induction bs as [|a|a b|a b c t IH] using list_ind3; try reflexivity.
  cbn [encode_bytes sextets_of_bytes map app]. rewrite IH.
  do 4 f_equal. unfold padding. f_equal.
  change (length (a :: b :: c :: t)) with (3 + length t)%nat.
  now rewrite Nat.Div0.add_mod, Nat.Div0.mod_same, Nat.add_0_l, Nat.Div0.mod_mod.
Qed.

Lemma sextets_of_bytes_ok bs :
  Forall is_byte bs -> Forall is_sextet (sextets_of_bytes bs).
Proof.
  unfold is_byte, is_sextet.
  induction bs as [|a|a b|a b c t IH] using list_ind3; intros H.
  - constructor.
  - inversion_clear H. cbn. repeat constructor; dlia.
  - inversion_clear H as [|? ? Ha H']. inversion_clear H' as [|? ? Hb _].
    cbn. repeat constructor; dlia.
  - inversion_clear H as [|? ? Ha H']. inversion_clear H' as [|? ? Hb H''].
    inversion_clear H'' as [|? ? Hc Ht].
    cbn [sextets_of_bytes]. repeat constructor; try dlia. now apply IH.
Qed.

Lemma decode_sextets_of_bytes bs :
  Forall is_byte bs -> decode_sextets (sextets_of_bytes bs) = bs.
Proof.
  unfold is_byte.
  induction bs as [|a|a b|a b c t IH] using list_ind3; intros H.
  - reflexivity.
  - inversion_clear H. cbn. f_equal. dlia.
  - inversion_clear H as [|? ? Ha H']. inversion_clear H' as [|? ? Hb _].
    cbn. f_equal; [|f_equal]; dlia.
  - inversion_clear H as [|? ? Ha H']. inversion_clear H' as [|? ? Hb H''].
    inversion_clear H'' as [|? ? Hc Ht].
    cbn [sextets_of_bytes decode_sextets]. rewrite IH by assumption.
    f_equal; [|f_equal; [|f_equal]]; dlia.
Qed.

Lemma sextet_of_char_of_sextet n :
  is_sextet n -> sextet_of_char (char_of_sextet n) = Some n.
Proof.
  intros H.
  assert (A : forallb
            (fun i => match sextet_of_char (char_of_sextet (N.of_nat i)) with
                      | Some m => m =? N.of_nat i
                      | None => false
                      end) (seq 0 64) = true) by (vm_compute; reflexivity).
  rewrite forallb_forall in A. specialize (A (N.to_nat n)).
  rewrite N2Nat.id in A.
  destruct (sextet_of_char (char_of_sextet n)) as [m|].
  - f_equal. apply N.eqb_eq, A, in_seq. unfold is_sextet in H. lia.
  - discriminate A. apply in_seq. unfold is_sextet in H. lia.
Qed.

Lemma sextets_chars l :
  Forall is_sextet l -> sextets (map char_of_sextet l) = Some l.
Proof.
  induction 1 as [|n l Hn _ IH]; [reflexivity|].
  cbn [map sextets]. now rewrite sextet_of_char_of_sextet, IH.
Qed.

(** A base64 character is neither white space nor the padding sign. *)
Lemma sextet_char_plain c n :
  sextet_of_char c = Some n ->
  is_ascii_whitespace c = false /\ (c =? pad_char) = false.
Proof.
  unfold sextet_of_char, is_ascii_whitespace, pad_char. intros H.
  destruct (N.eqb_spec c 9), (N.eqb_spec c 10), (N.eqb_spec c 12),
    (N.eqb_spec c 13), (N.eqb_spec c 32), (N.eqb_spec c 61);
    subst; try discriminate H; now split.
Qed.

Lemma filter_all {A} (f : A -> bool) l :
  Forall (fun x => f x = true) l -> filter f l = l.
Proof.
  induction 1 as [|x l Hx _ IH]; [reflexivity|].
  cbn [filter]. now rewrite Hx, IH.
Qed.

Lemma chars_plain l :
  Forall is_sextet l -> Forall plain (map char_of_sextet l).
Proof.
  induction 1 as [|n l Hn _ IH]; [constructor|].
  cbn [map]. constructor; [|exact IH].
  eapply sextet_char_plain, sextet_of_char_of_sextet, Hn.
Qed.

Lemma strip_padding_plain x k :
  Forall plain x -> (k <= 2)%nat ->
  strip_padding (x ++ repeat pad_char k) = x.
Proof.
  intros Hx Hk. unfold strip_padding.
  assert (Hrev : Forall plain (rev x)).
  { apply Forall_forall. intros c Hc. apply in_rev in Hc.
    revert c Hc. now apply Forall_forall. }
  destruct k as [|[|[|k]]]; [| | |lia]; cbn [repeat].
  - rewrite app_nil_r.
    destruct (rev x) as [|p [|q r]] eqn:E; [reflexivity| |];
      inversion_clear Hrev as [|? ? [_ Hp] _]; now rewrite Hp.
  - rewrite rev_app_distr. cbn [rev app].
    rewrite N.eqb_refl.
    destruct (rev x) as [|q r] eqn:E.
    + apply (f_equal (@rev N)) in E. rewrite rev_involutive in E. now subst x.
    + inversion_clear Hrev as [|? ? [_ Hq] _]. rewrite Hq.
      change (rev r ++ [q]) with (rev (q :: r)).
      now rewrite <- E, rev_involutive.
  - rewrite rev_app_distr. cbn [rev app].
    rewrite N.eqb_refl. now rewrite rev_involutive.
Qed.

Lemma padding_le bs : (length (padding bs) <= 2)%nat.
Proof.
  unfold padding. rewrite repeat_length.
  pose proof (Nat.mod_upper_bound (length bs) 3). 
  destruct (length bs mod 3)%nat as [|[|[|n]]]; cbn; lia.
Qed.

Lemma encode_bytes_length bs : (length (encode_bytes bs) mod 4 = 0)%nat.
Proof.
  induction bs as [|a|a b|a b c t IH] using list_ind3; try reflexivity.
  cbn [encode_bytes].
  change (length (?w :: ?x :: ?y :: ?z :: ?l)) with (4 + length l)%nat.
  now rewrite Nat.Div0.add_mod, Nat.Div0.mod_same, Nat.add_0_l, Nat.Div0.mod_mod.
Qed.

Lemma sextets_of_bytes_length bs :
  (length (sextets_of_bytes bs) mod 4 <> 1)%nat.
Proof.
  induction bs as [|a|a b|a b c t IH] using list_ind3; try discriminate.
  cbn [sextets_of_bytes].
  change (length (?w :: ?x :: ?y :: ?z :: ?l)) with (4 + length l)%nat.
  now rewrite Nat.Div0.add_mod, Nat.Div0.mod_same, Nat.add_0_l, Nat.Div0.mod_mod.
Qed.

(** [atob] inverts the base64 encoding of any byte sequence. *)
Lemma atob_encode_bytes bs :
  Forall is_byte bs -> atob (encode_bytes bs) = Ok bs.
Proof.
  intros H. unfold atob.
  pose proof (sextets_of_bytes_ok bs H) as Hs.
  pose proof (chars_plain _ Hs) as Hp.
  assert (Hf : filter (fun c => negb (is_ascii_whitespace c)) (encode_bytes bs)
               = encode_bytes bs).
  { apply filter_all. rewrite encode_bytes_split. apply Forall_app. split.
    - eapply Forall_impl; [|exact Hp]. intros c [Hc _]. now rewrite Hc.
    - unfold padding. apply Forall_forall. intros c Hc.
      apply repeat_spec in Hc. now subst c. }
  rewrite Hf, encode_bytes_length. cbn [Nat.eqb].
  rewrite encode_bytes_split.
  assert (Hsp : strip_padding
                  (map char_of_sextet (sextets_of_bytes bs) ++ padding bs)
                = map char_of_sextet (sextets_of_bytes bs)).
  { unfold padding. apply strip_padding_plain; [exact Hp|].
    pose proof (padding_le bs) as L. unfold padding in L.
    now rewrite repeat_length in L. }
  rewrite !Hsp, length_map.
  destruct (Nat.eqb_spec (length (sextets_of_bytes bs) mod 4) 1) as [E|_].
  - now apply sextets_of_bytes_length in E.
  - now rewrite sextets_chars, decode_sextets_of_bytes.
Qed.

Lemma fromCharCodes_bytes bs : Forall is_byte (fromCharCodes bs).
Proof.
  unfold fromCharCodes. apply Forall_forall. intros n Hn.
  apply in_map_iff in Hn as [b [<- _]]. apply to_N_lt.
Qed.

Lemma btoa_fromCharCodes bs :
  btoa (fromCharCodes bs) = Ok (encode_bytes (fromCharCodes bs)).
Proof.
  unfold btoa.
  replace (forallb (fun c => c <=? 255) (fromCharCodes bs)) with true;
    [reflexivity|].
  symmetry. apply forallb_forall. intros n Hn. apply N.leb_le.
  pose proof (fromCharCodes_bytes bs) as H. rewrite Forall_forall in H.
  specialize (H n Hn). unfold is_byte in H. lia.
Qed.

Lemma bytes_of_fromCharCodes bs :
  bytes_of_binary_string (fromCharCodes bs) = bs.
Proof.
  unfold bytes_of_binary_string, fromCharCodes.
  induction bs as [|b t IH]; [reflexivity|].
  cbn [map string_iter].
  replace (UTF8.is_high (Byte.to_N b)) with false.
  - cbn [map hd]. now rewrite byte_of_N_to_N, IH.
  - symmetry. apply UTF8Facts.is_high_false. pose proof (to_N_lt b). lia.
Qed.

(** The only error of [atob]. *)
Lemma atob_error e err : atob e = Err err -> err = InvalidCharacterError.
Proof.
  unfold atob. intros H.
  repeat match type of H with
         | (if ?c then _ else _) = _ => destruct c
         | match ?c with _ => _ end = _ => destruct c
         end; congruence.
Qed.

End Base64Facts.



(** [atob] does not see ASCII white space. *)
Lemma atob_whitespace e1 e2 w :
  Base64.is_ascii_whitespace w = true ->
  Base64.atob (e1 ++ w :: e2) = Base64.atob (e1 ++ e2).
Proof.
  intros Hw. unfold Base64.atob.
  rewrite !filter_app. cbn [filter]. now rewrite Hw.
Qed.

(* ================================================================== *)
(** * AES-GCM: lengths and decryption after encryption *)
(* ================================================================== *)

Module GCMFacts.
Import GCM.

Lemma cipher_length rks block : length (AES.cipher rks block) = 16%nat.
Proof.
  unfold AES.cipher, AES.final_round, AES.add_round_key.
  now rewrite !length_map, length_seq.
Qed.

Lemma counter_blocks_length n cb : length (counter_blocks n cb) = n.
Proof.
  revert cb. induction n as [|n IH]; intros cb; cbn; [|rewrite IH]; auto.
Qed.

Lemma keystream_length rks icb n :
  length (keystream rks icb n) = (16 * n)%nat.
Proof.
  unfold keystream. revert icb.
  induction n as [|n IH]; intros icb; [reflexivity|].
  cbn [counter_blocks flat_map]. rewrite length_app, cipher_length, IH. lia.
Qed.

Lemma keystream_covers rks icb (data : list byte) :
  (length data <= length (keystream rks icb ((length data + 15) / 16)))%nat.
Proof.
  rewrite keystream_length.
  pose proof (Nat.div_mod_eq (length data + 15) 16).
  pose proof (Nat.mod_upper_bound (length data + 15) 16). lia.
Qed.

Lemma gctr_length rks icb data : length (gctr rks icb data) = length data.
Proof.
  unfold gctr. rewrite xor_bytes_length.
  apply Nat.min_l, keystream_covers.
Qed.

(** Counter mode is its own inverse. *)
Lemma gctr_involutive rks icb data :
  gctr rks icb (gctr rks icb data) = data.
Proof.
  unfold gctr at 1. rewrite gctr_length. unfold gctr.
  apply xor_bytes_involutive, keystream_covers.
Qed.

Lemma tag_length_16 rks iv ct : length (tag rks iv ct) = tag_length.
Proof. unfold tag. now rewrite gctr_length, be_bytes_length. Qed.

Lemma bytes_eqb_refl a : bytes_eqb a a = true.
Proof.
  induction a as [|x a IH]; [reflexivity|].
  cbn [bytes_eqb]. rewrite IH, andb_true_r.
  now apply Byte.byte_dec_lb.
Qed.

Lemma bytes_eqb_eq a b : bytes_eqb a b = true <-> a = b.
Proof.
  split; [|intros ->; apply bytes_eqb_refl].
  revert b. induction a as [|x a IH]; intros [|y b] H; try discriminate;
    [reflexivity|].
  cbn [bytes_eqb] in H. apply andb_true_iff in H as [H1 H2].
  apply Byte.byte_dec_bl in H1. apply IH in H2. congruence.
Qed.

Lemma encrypt_length key iv pt :
  length (encrypt key iv pt) = (length pt + 16)%nat.
Proof.
  unfold encrypt. now rewrite length_app, tag_length_16, gctr_length.
Qed.


(** Decryption under the same key and nonce returns the plaintext. *)
Lemma decrypt_encrypt key iv pt :
  decrypt key iv (encrypt key iv pt) = Ok pt.
Proof.
  unfold decrypt. rewrite encrypt_length.
  destruct (Nat.ltb_spec (length pt + 16) tag_length) as [H|_];
    [unfold tag_length in H; lia|].
  replace (length pt + 16 - tag_length)%nat with (length pt)
    by (unfold tag_length; lia).
  unfold encrypt.
  set (rks := AES.round_keys key).
  set (ct := gctr rks (inc32 (j0 (hash_subkey rks) iv)) pt).
  assert (Hl : length ct = length pt) by apply gctr_length.
  rewrite <- Hl, firstn_app, Nat.sub_diag, firstn_all, firstn_O, app_nil_r.
  rewrite skipn_app, Nat.sub_diag, skipn_all, skipn_O. cbn [app].
  rewrite bytes_eqb_refl. unfold ct. now rewrite gctr_involutive.
Qed.

(** An input shorter than the tag is rejected, whatever the key. *)
Lemma decrypt_short key iv data :
  (length data < 16)%nat -> decrypt key iv data = Err OperationError.
Proof.
  intros H. unfold decrypt, tag_length.
  now destruct (Nat.ltb_spec (length data) 16); [|lia].
Qed.

(** Decryption returns a plaintext exactly when the tag verifies. *)
Lemma decrypt_ok_iff key iv ct t :
  length t = tag_length ->
  (exists pt, decrypt key iv (ct ++ t) = Ok pt)
  <-> t = tag (AES.round_keys key) iv ct.
Proof.
  intros Ht. unfold decrypt. rewrite length_app, Ht.
  destruct (Nat.ltb_spec (length ct + tag_length) tag_length) as [H|_]; [lia|].
  replace (length ct + tag_length - tag_length)%nat with (length ct) by lia.
  rewrite firstn_app, Nat.sub_diag, firstn_all, firstn_O, app_nil_r.
  rewrite skipn_app, Nat.sub_diag, skipn_all, skipn_O. cbn [app].
  destruct (bytes_eqb t _) eqn:E.
  - apply bytes_eqb_eq in E. split; [intros _; exact E|eauto].
  - split; [intros [pt Hpt]; discriminate|].
    intros Heq. apply bytes_eqb_eq in Heq. congruence.
Qed.


End GCMFacts.

(* ================================================================== *)
(** * SHA-256, HMAC and PBKDF2: lengths and key padding *)
(* ================================================================== *)

Module HashFacts.

Lemma sha256_length msg : length (SHA256.sha256 msg) = 32%nat.
Proof.
  unfold SHA256.sha256, SHA256.digest_bytes.
  now rewrite !length_app, !be_bytes_length.
Qed.

(** ** HMAC: a key shorter than the block is filled with zero bytes, so
    appending a zero byte to it changes nothing. *)





(** ** UTF-8 of a string followed by U+0000 *)




(** ** Hexadecimal *)

Lemma hex_digit_lower n : n < 16 -> is_lower_hex (hex_digit n).
Proof.
  intros H. unfold is_lower_hex.
  assert (A : forallb (fun i => let c := hex_digit (N.of_nat i) in
                        ((48 <=? c) && (c <=? 57)) || ((97 <=? c) && (c <=? 102)))
                      (seq 0 16) = true) by (vm_compute; reflexivity).
  rewrite forallb_forall in A. specialize (A (N.to_nat n)).
  rewrite N2Nat.id in A. cbv zeta in A.
  rewrite orb_true_iff, !andb_true_iff, !N.leb_le in A.
  apply A, in_seq. lia.
Qed.

Lemma hex_value_digit n : n < 16 -> hex_value (hex_digit n) = Some n.
Proof.
  intros H.
  assert (A : forallb (fun i => match hex_value (hex_digit (N.of_nat i)) with
                                | Some m => m =? N.of_nat i
                                | None => false
                                end) (seq 0 16) = true)
    by (vm_compute; reflexivity).
  rewrite forallb_forall in A. specialize (A (N.to_nat n)).
  rewrite N2Nat.id in A.
  destruct (hex_value (hex_digit n)) as [m|].
  - f_equal. apply N.eqb_eq, A, in_seq. lia.
  - discriminate A. apply in_seq. lia.
Qed.

(** What [b.toString(16).padStart(2, '0')] yields: two digits. *)
Lemma hex_of_byte b :
  padStart0 2 (toString16 b)
  = [hex_digit (Byte.to_N b / 16); hex_digit (Byte.to_N b mod 16)].
Proof.
  unfold toString16, padStart0.
  destruct (N.ltb_spec (Byte.to_N b) 16) as [H|H]; cbn [length Nat.sub repeat app].
  - rewrite N.div_small, N.mod_small by exact H. reflexivity.
  - reflexivity.
Qed.

Lemma hex_encode_length bs : length (hex_encode bs) = (2 * length bs)%nat.
Proof.
  unfold hex_encode. induction bs as [|b t IH]; [reflexivity|].
  cbn [map concat]. rewrite length_app, IH, hex_of_byte. cbn [length]. lia.
Qed.

Lemma hex_encode_lower bs : Forall is_lower_hex (hex_encode bs).
Proof.
  unfold hex_encode. induction bs as [|b t IH]; [constructor|].
  cbn [map concat]. rewrite hex_of_byte. cbn [app].
  pose proof (to_N_lt b).
  constructor; [|constructor; [|exact IH]]; apply hex_digit_lower; dlia.
Qed.

Lemma hex_decode_encode bs : hex_decode (hex_encode bs) = Some bs.
Proof.
  unfold hex_encode. induction bs as [|b t IH]; [reflexivity|].
  cbn [map concat]. rewrite hex_of_byte. cbn [app hex_decode].
  pose proof (to_N_lt b).
  rewrite !hex_value_digit, IH by dlia.
  do 2 f_equal. rewrite <- (byte_of_N_to_N b) at 3. f_equal. dlia.
Qed.

End HashFacts.

(** PBKDF2 returns as many bytes as it is asked for. *)
Lemma hmac_length key msg : length (PBKDF2.hmac key msg) = 32%nat.
Proof. apply HashFacts.sha256_length. Qed.

Lemma F_length password salt c i :
  length (PBKDF2.F password salt c i) = 32%nat.
Proof.
  unfold PBKDF2.F.
  set (step := fun ut : list byte * list byte =>
                 let u := PBKDF2.hmac password (fst ut) in
                 (u, xor_bytes (snd ut) u)).
  set (u1 := PBKDF2.hmac password (salt ++ be_bytes 4 i)).
  assert (H : length (fst (N.iter (c - 1) step (u1, u1))) = 32%nat
              /\ length (snd (N.iter (c - 1) step (u1, u1))) = 32%nat).
  { apply (N.iter_invariant (c - 1) _ step
             (fun ut => length (fst ut) = 32%nat /\ length (snd ut) = 32%nat)).
    - intros [u t] [Hu Ht]. cbn [step fst snd] in *.
      split; [apply hmac_length|].
      now rewrite xor_bytes_length, Ht, hmac_length.
    - cbn [fst snd]. split; apply hmac_length. }
  exact (proj2 H).
Qed.

(** PBKDF2 yields as many bytes as it is asked for. *)
Lemma pbkdf2_length password salt c dkLen :
  length (PBKDF2.pbkdf2 password salt c dkLen) = dkLen.
Proof.
  unfold PBKDF2.pbkdf2. rewrite length_firstn. apply Nat.min_l.
  assert (L : forall l, length (flat_map
                (fun i => PBKDF2.F password salt c (N.of_nat i)) l)
              = (32 * length l)%nat).
  { induction l as [|i l IH]; [reflexivity|].
    cbn [flat_map length]. rewrite length_app, F_length, IH. lia. }
  rewrite L, length_seq.
  pose proof (Nat.div_mod_eq (dkLen + 31) 32).
  pose proof (Nat.mod_upper_bound (dkLen + 31) 32). lia.
Qed.

(* ================================================================== *)
(** * [encryptData] and [decryptData] *)
(* ================================================================== *)

Module CryptoFacts.







(** The primitives are used through their lemmas from here on. *)
#[local] Opaque PBKDF2.pbkdf2 GCM.encrypt GCM.decrypt UTF8.encode UTF8.decode
  Base64.encode_bytes Base64.atob.



Lemma getRandomValues_length n g : length (fst (getRandomValues n g)) = n.
Proof. cbn [getRandomValues fst]. now rewrite length_map, length_seq. Qed.

Lemma salt_of_length g : length (salt_of g) = 16%nat.
Proof. apply getRandomValues_length. Qed.

Lemma iv_of_length g : length (iv_of g) = 12%nat.
Proof. apply getRandomValues_length. Qed.

(** [set] overwrites the part of the array it covers. *)
Lemma uint8_set_middle (pre mid post src : list byte) :
  length mid = length src ->
  uint8_set (pre ++ mid ++ post) src (length pre) = pre ++ src ++ post.
Proof.
  intros H. unfold uint8_set.
  rewrite firstn_app, Nat.sub_diag, firstn_all, firstn_O, app_nil_r.
  rewrite (Nat.add_comm (length pre)), <- skipn_skipn.
  rewrite skipn_app, Nat.sub_diag, skipn_all, skipn_O. cbn [app].
  rewrite <- H, skipn_app, Nat.sub_diag, skipn_all, skipn_O. reflexivity.
Qed.

(** The three [set] calls fill the zeroed array with the concatenation. *)
Lemma combined_eq (salt iv enc : list byte) :
  uint8_set
    (uint8_set
       (uint8_set (repeat Byte.x00 (length salt + length iv + length enc))
                  salt 0)
       iv (length salt))
    enc (length salt + length iv)
  = salt ++ iv ++ enc.
Proof.
  rewrite <- Nat.add_assoc, !repeat_app.
  pose proof (uint8_set_middle [] (repeat Byte.x00 (length salt))
                (repeat Byte.x00 (length iv) ++ repeat Byte.x00 (length enc))
                salt (repeat_length _ _)) as E1.
  cbn [app length] in E1. rewrite E1.
  rewrite (uint8_set_middle salt _ _ iv) by apply repeat_length.
  pose proof (uint8_set_middle (salt ++ iv) (repeat Byte.x00 (length enc))
                [] enc (repeat_length _ _)) as E2.
  rewrite app_nil_r, <- app_assoc, length_app in E2. rewrite E2.
  now rewrite app_nil_r, <- app_assoc.
Qed.

(** [encryptData] always returns: its result is the base64 text of
    salt, nonce and GCM output, in this order. *)
Lemma encryptData_eq data masterKey g :
  fst (encryptData data masterKey g)
  = Ok (Base64.encode_bytes (fromCharCodes (envelope_bytes data masterKey g))).
Proof.
  unfold encryptData.
  destruct (getRandomValues 16 g) as [salt g1] eqn:E1.
  destruct (getRandomValues 12 g1) as [iv g2] eqn:E2.
  cbn [fst]. rewrite combined_eq, Base64Facts.btoa_fromCharCodes.
  unfold envelope_bytes, body_of, salt_of, iv_of. rewrite E1. cbn [fst snd].
  now rewrite E2.
Qed.

(** How [decryptData] reads a well-formed base64 text. *)
Lemma decryptData_bytes (combined : list byte) masterKey :
  decryptData (Base64.encode_bytes (fromCharCodes combined)) masterKey
  = let* pt := GCM.decrypt
                 (deriveKey masterKey (salt_string (firstn 16 combined)))
                 (firstn 12 (skipn 16 combined)) (skipn 28 combined) in
    Ok (UTF8.decode pt).
Proof.
  unfold decryptData.
  rewrite Base64Facts.atob_encode_bytes
    by apply Base64Facts.fromCharCodes_bytes.
  unfold bind at 1. rewrite (Base64Facts.bytes_of_fromCharCodes combined).
  unfold slice. rewrite skipn_O. reflexivity.
Qed.

Lemma firstn_app_exact {A} (l1 l2 : list A) n :
  length l1 = n -> firstn n (l1 ++ l2) = l1.
Proof.
  intros <-. now rewrite firstn_app, Nat.sub_diag, firstn_all, firstn_O, app_nil_r.
Qed.

Lemma skipn_app_exact {A} (l1 l2 : list A) n :
  length l1 = n -> skipn n (l1 ++ l2) = l2.
Proof.
  intros <-. now rewrite skipn_app, Nat.sub_diag, skipn_all, skipn_O.
Qed.

Lemma decryptData_parts salt iv body masterKey :
  length salt = 16%nat -> length iv = 12%nat ->
  decryptData (Base64.encode_bytes (fromCharCodes (salt ++ iv ++ body)))
              masterKey
  = let* pt := GCM.decrypt (deriveKey masterKey (salt_string salt)) iv body in
    Ok (UTF8.decode pt).
Proof.
  intros Hs Hi. rewrite decryptData_bytes.
  rewrite (firstn_app_exact salt (iv ++ body) 16 Hs).
  rewrite (skipn_app_exact salt (iv ++ body) 16 Hs).
  rewrite (firstn_app_exact iv body 12 Hi).
  replace (skipn 28 (salt ++ iv ++ body)) with body; [reflexivity|].
  change 28%nat with (12 + 16)%nat.
  rewrite <- skipn_skipn, (skipn_app_exact salt (iv ++ body) 16 Hs).
  now rewrite (skipn_app_exact iv body 12 Hi).
Qed.

(** Decryption of an envelope of [encryptData] under a master key that
    derives the same AES key. *)
Lemma decrypt_encrypt_same_key data k1 k2 g :
  deriveKey k2 (salt_string (salt_of g))
  = deriveKey k1 (salt_string (salt_of g)) ->
  decryptData
    (Base64.encode_bytes (fromCharCodes (envelope_bytes data k1 g))) k2
  = Ok (UTF8.decode (UTF8.encode data)).
Proof.
  intros Hk. unfold envelope_bytes.
  rewrite decryptData_parts by (apply salt_of_length || apply iv_of_length).
  unfold body_of. rewrite Hk, GCMFacts.decrypt_encrypt. reflexivity.
Qed.

Lemma string_iter_length s : (length (string_iter s) <= length s)%nat.
Proof.
  remember (length s) as n eqn:Hn. revert s Hn.
  induction n as [n IH] using lt_wf_ind. intros s Hn.
  destruct s as [|c t]; [cbn; lia|]. cbn [string_iter].
  destruct (UTF8.is_high c).
  - destruct t as [|d t']; [cbn in *; lia|].
    destruct (UTF8.is_low d); cbn [length].
    + specialize (IH (length t')). cbn [length] in Hn.
      specialize (IH ltac:(lia) t' eq_refl). lia.
    + specialize (IH (length (d :: t'))). cbn [length] in Hn, IH.
      specialize (IH ltac:(lia) (d :: t') eq_refl). cbn [length] in IH. lia.
  - cbn [length]. specialize (IH (length t)). cbn [length] in Hn.
    specialize (IH ltac:(lia) t eq_refl). lia.
Qed.

(** A binary string of fewer than 44 code units never passes the GCM
    length check. *)
Lemma decryptData_short e bin k :
  Base64.atob e = Ok bin -> (length bin < 44)%nat ->
  decryptData e k = Err OperationError.
Proof.
  intros He Hl. unfold decryptData. rewrite He. unfold bind at 1.
  rewrite GCMFacts.decrypt_short; [reflexivity|].
  rewrite length_skipn. unfold bytes_of_binary_string. rewrite length_map.
  pose proof (string_iter_length bin). lia.
Qed.

Lemma decryptData_bad_base64 e err k :
  Base64.atob e = Err err -> decryptData e k = Err InvalidCharacterError.
Proof.
  intros He. unfold decryptData. rewrite He.
  now rewrite (Base64Facts.atob_error e err He).
Qed.



End CryptoFacts.

Import CryptoFacts.

#[local] Opaque PBKDF2.pbkdf2 GCM.encrypt GCM.decrypt UTF8.encode UTF8.decode
  Base64.encode_bytes Base64.atob.

(* ================================================================== *)
(** * The claims about [src/lib/crypto.ts] *)
(* ================================================================== *)

(* ------------------------------------------------------------------ *)

(** The scenario of the specification: ["hunter2"] comes back under the
    key it was encrypted with. *)
Example hunter2_round_trip :
  exists env,
    fst (encryptData (js "hunter2") (js "correct-master-key") sample_entropy)
    = Ok env
    /\ decryptData env (js "correct-master-key") = Ok (js "hunter2").
Proof.
  eexists. split; [apply encryptData_eq|].
  rewrite decrypt_encrypt_same_key by reflexivity.
  vm_compute. reflexivity.
Qed.

(** A plaintext that begins with U+FEFF loses it: [new TextDecoder()]
    drops a leading byte order mark. *)
Example leading_bom_is_lost :
  exists env,
    fst (encryptData [0xFEFF; 0x61] (js "correct-master-key") sample_entropy)
    = Ok env
    /\ decryptData env (js "correct-master-key") = Ok [0x61].
Proof.
  eexists. split; [apply encryptData_eq|].
  rewrite decrypt_encrypt_same_key by reflexivity.
  vm_compute. reflexivity.
Qed.




(* ------------------------------------------------------------------ *)



(* ------------------------------------------------------------------ *)



(* ------------------------------------------------------------------ *)

(** C5 (as stated, refuted): the envelope ["AAAA"] is valid base64 of the
    wrong length (3 bytes).  [decryptData] does not reject it up front:
    it fails in the authenticated decryption, with the very error a
    failed tag check gives. *)
Lemma C5_counterexample :
  Base64.atob (js "AAAA") = Ok [0; 0; 0]
  /\ decryptData (js "AAAA") (js "correct-master-key") = Err OperationError
  /\ GCM.decrypt (repeat Byte.x00 32) (repeat Byte.x00 12)
                 (repeat Byte.x00 16) = Err OperationError.
Proof.
  split; [vm_compute; reflexivity|]. split; [|vm_compute; reflexivity].
  apply decryptData_short with (bin := [0; 0; 0]);
    [vm_compute; reflexivity | cbn; lia].
Qed.

(** C5 (amended): an input that is not valid base64 fails with the
    [InvalidCharacterError] of [atob], whatever the master key, hence
    before key derivation and decryption, and this error differs from the
    [OperationError] of a failed tag check; an input that is valid base64
    of fewer than 44 bytes fails with that same [OperationError]; any
    other input goes to the authenticated decryption. *)
Theorem C5_malformed (e k : jsstring) :
  match Base64.atob e with
  | Err _ =>
      decryptData e k = Err InvalidCharacterError
      /\ InvalidCharacterError <> OperationError
  | Ok bin =>
      if (length bin <? 44)%nat
      then decryptData e k = Err OperationError
      else
        decryptData e k
        = let combined := bytes_of_binary_string bin in
          let* pt := GCM.decrypt
                       (deriveKey k (salt_string (firstn 16 combined)))
                       (firstn 12 (skipn 16 combined)) (skipn 28 combined) in
          Ok (UTF8.decode pt)
  end.
Proof.
  destruct (Base64.atob e) as [bin|err] eqn:He.
  - destruct (Nat.ltb_spec (length bin) 44) as [Hl|Hl].
    + now apply decryptData_short with (bin := bin).
    + unfold decryptData. rewrite He. unfold bind at 1.
      unfold slice. rewrite skipn_O. reflexivity.
  - split; [|discriminate]. now apply decryptData_bad_base64 with (err := err).
Qed.

(* ------------------------------------------------------------------ *)


(* ------------------------------------------------------------------ *)



(* ------------------------------------------------------------------ *)

(** The digest of a known text (FIPS 180-4, "abc"). *)
Example hashMasterKey_abc :
  hashMasterKey (js "abc")
  = js "ba7816bf8f01cfea414140de5dae2223b00361a396177a9cb410ff61f20015ad".
Proof. vm_compute. reflexivity. Qed.

(** C4: [hashMasterKey] is a function of the master key alone, so equal
    keys give equal results; the result has 64 characters, all of them
    lowercase hexadecimal digits, and read as hexadecimal it is the
    32-byte SHA-256 digest of the UTF-8 bytes of the key. *)
Theorem C4_hashMasterKey (k k' : jsstring) :
  k = k' ->
  hashMasterKey k = hashMasterKey k'
  /\ length (hashMasterKey k) = 64%nat
  /\ Forall is_lower_hex (hashMasterKey k)
  /\ hex_decode (hashMasterKey k)
     = Some (SHA256.sha256 (UTF8.encode k))
  /\ length (SHA256.sha256 (UTF8.encode k)) = 32%nat.
Proof.
  intros <-. split; [reflexivity|].
  change (hashMasterKey k)
    with (hex_encode (SHA256.sha256 (UTF8.encode k))).
  split; [now rewrite HashFacts.hex_encode_length, HashFacts.sha256_length|].
  split; [apply HashFacts.hex_encode_lower|].
  split; [apply HashFacts.hex_decode_encode|apply HashFacts.sha256_length].
Qed.

Lemma C4_hashMasterKey_witness :
  hashMasterKey (js "abc") = hashMasterKey (js "abc")
  /\ length (hashMasterKey (js "abc")) = 64%nat
  /\ Forall is_lower_hex (hashMasterKey (js "abc"))
  /\ hex_decode (hashMasterKey (js "abc"))
     = Some (SHA256.sha256 (UTF8.encode (js "abc")))
  /\ length (SHA256.sha256 (UTF8.encode (js "abc"))) = 32%nat.
Proof. apply (C4_hashMasterKey (js "abc") (js "abc")). reflexivity. Defined.

(* ================================================================== *)
(** * The session timer *)
(* ================================================================== *)

Module SessionFacts.
Import Session.

Lemma login_authenticated key id now st :
  key <> [] -> id <> [] -> isAuthenticated (login key id now st) = true.
Proof.
  intros Hk Hi. unfold isAuthenticated, login. cbn [userId masterKey].
  now rewrite !truthy_some.
Qed.

(** A tick within 30 seconds of the last activity changes nothing. *)
Lemma tick_early now st :
  (now - lastActivity st <= 30000)%Z -> tick now st = st.
Proof.
  intros H. unfold tick. destruct (isAuthenticated st); [|reflexivity].
  destruct (Z.ltb_spec 30000 (now - lastActivity st)); [lia|reflexivity].
Qed.

(** A tick more than 30 seconds after the last activity logs out. *)
Lemma tick_late now st :
  isAuthenticated st = true -> (30000 < now - lastActivity st)%Z ->
  tick now st = logout st.
Proof.
  intros Ha H. unfold tick. rewrite Ha.
  destruct (Z.ltb_spec 30000 (now - lastActivity st)); [reflexivity|lia].
Qed.

Lemma logout_clears st :
  isAuthenticated (logout st) = false
  /\ masterKey (logout st) = None /\ userId (logout st) = None.
Proof. repeat split. Qed.

(** The first [n] ticks of an interval started at [start] leave the
    session as it is while [start + 1000 n] is within 30 seconds of the
    last activity. *)
Lemma run_ticks_early st start n :
  (start + 1000 * Z.of_nat n - lastActivity st <= 30000)%Z ->
  run st (ticks start n) = st.
Proof.
  revert start. induction n as [|n IH]; intros start H; [reflexivity|].
  cbn [ticks run fold_left step]. rewrite tick_early by lia.
  apply IH. lia.
Qed.

Lemma run_app st es1 es2 : run st (es1 ++ es2) = run (run st es1) es2.
Proof. apply fold_left_app. Qed.

Lemma ticks_succ start n :
  ticks start (S n)
  = ticks start n ++ [Tick (start + 1000 * Z.of_nat (S n))%Z].
Proof.
  revert start. induction n as [|n IH]; intros start.
  - cbn [ticks app]. repeat f_equal.
  - change (ticks start (S (S n)))
      with (Tick (start + 1000)%Z :: ticks (start + 1000)%Z (S n)).
    rewrite IH. cbn [ticks app].
    replace (start + 1000 + 1000 * Z.of_nat (S n))%Z
      with (start + 1000 * Z.of_nat (S (S n)))%Z by lia.
    reflexivity.
Qed.

(** With no activity since [lastActivity st = start], the 31st tick logs
    out. *)
Lemma run_ticks_31 st :
  isAuthenticated st = true ->
  run st (ticks (lastActivity st) 31) = logout st.
Proof.
  intros Ha. rewrite ticks_succ, run_app.
  rewrite run_ticks_early by lia.
  cbn [run fold_left step]. apply tick_late; [exact Ha|lia].
Qed.

(** Once logged out, the session ignores every tick. *)
Lemma run_ticks_logged_out st ts :
  isAuthenticated st = false -> run st (map Tick ts) = st.
Proof.
  intros H. induction ts as [|t ts IH]; [reflexivity|].
  cbn [map run fold_left step]. unfold tick. rewrite H. exact IH.
Qed.

(** Whatever the times at which the interval fires, a single firing more
    than 30 seconds after the last activity ends the session. *)
Lemma run_ticks_any st ts :
  isAuthenticated st = true ->
  Exists (fun t => 30000 < t - lastActivity st)%Z ts ->
  run st (map Tick ts) = logout st.
Proof.
  intros Ha Hex. induction Hex as [t ts Ht|t ts _ IH].
  - cbn [map run fold_left step]. rewrite tick_late by assumption.
    apply run_ticks_logged_out. reflexivity.
  - cbn [map run fold_left step].
    destruct (Z.ltb_spec 30000 (t - lastActivity st)) as [Ht|Ht].
    + rewrite tick_late by assumption.
      apply run_ticks_logged_out. reflexivity.
    + rewrite tick_early by assumption. exact IH.
Qed.

End SessionFacts.

Section SessionClaims.
Import Session SessionFacts.

(** C7: after a login at [t0], with the interval firing every second and
    no activity, the session is unchanged through the 30th tick and the
    31st tick logs out: the state is unauthenticated and the master key
    and user id are [null]; the same holds however late the interval
    fires, as soon as one firing comes more than 30 seconds after the
    login.  With an activity event at second 29 the clock restarts: the
    session stays authenticated, with its master key, through the next 30
    ticks (so past second 30 and second 31), and ends at the 31st tick
    after the activity. *)
Theorem C7_session_timeout (key id : jsstring) (t0 : Z) (st : state) :
  key <> [] -> id <> [] ->
  let s0 := login key id t0 st in
  isAuthenticated s0 = true
  /\ (forall n, (n <= 30)%nat -> run s0 (ticks t0 n) = s0)
  /\ (let s31 := run s0 (ticks t0 31) in
      isAuthenticated s31 = false
      /\ masterKey s31 = None /\ userId s31 = None)
  /\ (forall ts, Exists (fun t => 30000 < t - t0)%Z ts ->
        let s := run s0 (map Tick ts) in
        isAuthenticated s = false /\ masterKey s = None)
  /\ (let s29 := run s0 (ticks t0 28 ++ [Activity (t0 + 29000)]) in
      isAuthenticated s29 = true
      /\ (forall n, (n <= 30)%nat ->
            let s := run s29 (ticks (t0 + 29000) n) in
            isAuthenticated s = true /\ masterKey s = Some key)
      /\ (let s60 := run s29 (ticks (t0 + 29000) 31) in
          isAuthenticated s60 = false /\ masterKey s60 = None)).
Proof.
  intros Hk Hi s0.
  assert (Ha : isAuthenticated s0 = true) by now apply login_authenticated.
  split; [exact Ha|]. split.
  { intros n Hn. apply run_ticks_early. cbn [s0 login lastActivity]. lia. }
  split.
  { change t0 with (lastActivity s0). rewrite run_ticks_31 by exact Ha.
    apply logout_clears. }
  split.
  { intros ts Hts. cbv zeta. rewrite run_ticks_any by assumption.
    split; reflexivity. }
  assert (E : run s0 (ticks t0 28 ++ [Activity (t0 + 29000)])
              = mkState (Some id) (Some key) (t0 + 29000)).
  { rewrite run_app, run_ticks_early by (cbn [s0 login lastActivity]; lia).
    reflexivity. }
  rewrite E. clear E.
  set (s29 := mkState (Some id) (Some key) (t0 + 29000)).
  assert (Ha29 : isAuthenticated s29 = true).
  { unfold isAuthenticated, s29. cbn [userId masterKey].
    now rewrite !truthy_some. }
  cbv zeta. split; [exact Ha29|]. split.
  - intros n Hn.
    rewrite run_ticks_early by (cbn [s29 lastActivity]; lia).
    split; [exact Ha29|reflexivity].
  - change (t0 + 29000)%Z with (lastActivity s29).
    rewrite run_ticks_31 by exact Ha29. split; reflexivity.
Qed.

Lemma C7_session_timeout_witness :
  let s0 := login (js "correct-master-key") (js "user-1") 0
                  (mkState None None 0) in
  let s31 := run s0 (ticks 0 31) in
  isAuthenticated s31 = false /\ masterKey s31 = None /\ userId s31 = None.
Proof.
  assert (Hk : js "correct-master-key" <> []) by discriminate.
  assert (Hi : js "user-1" <> []) by discriminate.
  exact (proj1 (proj2 (proj2
           (C7_session_timeout (js "correct-master-key") (js "user-1") 0
              (mkState None None 0) Hk Hi)))).
Defined.

End SessionClaims.

(* ================================================================== *)
(** * [verifyMasterKey] *)
(* ================================================================== *)

Module VerifyFacts.
Import Supabase.

Lemma str_eqb_eq a b : str_eqb a b = true <-> a = b.
Proof.
  unfold str_eqb. destruct (list_eq_dec N.eq_dec a b); split; congruence.
Qed.

Lemma filter_none {A} (f : A -> bool) l :
  (forall x, In x l -> f x = false) -> filter f l = [].
Proof.
  induction l as [|x l IH]; intros H; [reflexivity|].
  cbn [filter]. rewrite (H x) by now left.
  apply IH. intros y Hy. apply H. now right.
Qed.




End VerifyFacts.

Section LoginClaims.
Import Supabase VerifyFacts.



End LoginClaims.

(* ================================================================== *)
(** * [loadData] *)
(* ================================================================== *)

Module DashboardFacts.
Import Dashboard.

#[local] Opaque decryptData.






End DashboardFacts.

Section VaultClaims.
Import Dashboard DashboardFacts.



End VaultClaims.

(* ================================================================== *)
(** * More about [src/lib/crypto.ts] *)
(* ================================================================== *)

Module EnvelopeFacts.








End EnvelopeFacts.

Import EnvelopeFacts.






(** X4: ASCII white space (tab, line feed, form feed, carriage return,
    space) anywhere in an envelope does not change what [decryptData]
    returns. *)
Theorem decryptData_ignores_whitespace (e1 e2 k : jsstring) (w : N) :
  Base64.is_ascii_whitespace w = true ->
  decryptData (e1 ++ w :: e2) k = decryptData (e1 ++ e2) k.
Proof.
  intros Hw. unfold decryptData. now rewrite (atob_whitespace e1 e2 w Hw).
Qed.

Lemma decryptData_ignores_whitespace_witness :
  decryptData (js "AAAA" ++ 10 :: js "AAAA") (js "k")
  = decryptData (js "AAAA" ++ js "AAAA") (js "k").
Proof.
  exact (decryptData_ignores_whitespace (js "AAAA") (js "AAAA") (js "k") 10
           eq_refl).
Defined.

(* ================================================================== *)
(** * The key schedule of the derived key *)
(* ================================================================== *)

Module KeyFacts.
Import AES.

Lemma chunks_exact {A} (n : nat) (m fuel : nat) (l : list A) :
  (0 < n)%nat -> length l = (n * m)%nat -> (m <= fuel)%nat ->
  length (chunks n fuel l) = m
  /\ Forall (fun c => length c = n) (chunks n fuel l).
Proof.
  intros Hn. revert fuel l. induction m as [|m IH]; intros fuel l Hl Hf.
  - rewrite Nat.mul_0_r in Hl. apply length_zero_iff_nil in Hl. subst l.
    destruct fuel; cbn; split; constructor.
  - destruct fuel as [|fuel]; [lia|].
    destruct l as [|a l]; [cbn in Hl; lia|].
    cbn [chunks].
    destruct (IH fuel (skipn n (a :: l))) as [H1 H2].
    + rewrite length_skipn, Hl. lia.
    + lia.
    + split; [cbn [length]; now rewrite H1|].
      constructor; [|exact H2]. rewrite length_firstn, Hl. lia.
Qed.

Lemma blocks_exact {A} (n m : nat) (l : list A) :
  (0 < n)%nat -> length l = (n * m)%nat ->
  length (blocks n l) = m /\ Forall (fun c => length c = n) (blocks n l).
Proof.
  intros Hn Hl. apply chunks_exact; [exact Hn|exact Hl|]. rewrite Hl. nia.
Qed.

Lemma chunks_In {A} (n fuel : nat) (l : list A) c x :
  In c (chunks n fuel l) -> In x c -> In x l.
Proof.
  revert l. induction fuel as [|fuel IH]; intros l Hc Hx; [destruct Hc|].
  destruct l as [|a l]; [destruct Hc|].
  cbn [chunks] in Hc. destruct Hc as [<-|Hc].
  - rewrite <- (firstn_skipn n (a :: l)). apply in_or_app. left. exact Hx.
  - rewrite <- (firstn_skipn n (a :: l)). apply in_or_app. right.
    exact (IH _ Hc Hx).
Qed.

Lemma xor_list_length a b :
  length (xor_list a b) = Nat.min (length a) (length b).
Proof. unfold xor_list. now rewrite length_map, length_combine. Qed.

Lemma rot_word_length w : length (rot_word w) = length w.
Proof.
  destruct w as [|a t]; [reflexivity|].
  cbn [rot_word]. rewrite length_app. cbn [length]. lia.
Qed.

Lemma nth_word (w : list (list N)) i :
  Forall (fun c => length c = 4%nat) w -> (i < length w)%nat ->
  length (nth i w []) = 4%nat.
Proof.
  intros H Hi. rewrite Forall_forall in H. apply H. now apply nth_In.
Qed.

(** The expansion adds [n] words of four bytes. *)
Lemma expand_words nk n i w :
  (1 <= nk <= length w)%nat ->
  Forall (fun c => length c = 4%nat) w ->
  length (expand nk n i w) = (n + length w)%nat
  /\ Forall (fun c => length c = 4%nat) (expand nk n i w).
Proof.
  revert i w. induction n as [|n IH]; intros i w Hnk Hw; [now split|].
  cbn [expand].
  assert (Hprev : length (nth 0 w []) = 4%nat) by (apply nth_word; [exact Hw|lia]).
  assert (Hold : length (nth (nk - 1) w []) = 4%nat)
    by (apply nth_word; [exact Hw|lia]).
  destruct (IH (S i)
              (xor_list (nth (nk - 1) w [])
                 (if (i mod nk =? 0)%nat
                  then xor_list (sub_word (rot_word (nth 0 w [])))
                                (rcon (i / nk))
                  else if ((6 <? nk) && (i mod nk =? 4))%nat
                       then sub_word (nth 0 w [])
                       else nth 0 w []) :: w)) as [H1 H2].
  - cbn [length]. lia.
  - constructor; [|exact Hw]. rewrite xor_list_length, Hold.
    destruct (i mod nk =? 0)%nat.
    + rewrite xor_list_length. unfold sub_word.
      rewrite length_map, rot_word_length, Hprev. reflexivity.
    + destruct ((6 <? nk) && (i mod nk =? 4))%nat.
      * unfold sub_word. now rewrite length_map, Hprev.
      * now rewrite Hprev.
  - split; [|exact H2]. rewrite H1. cbn [length]. lia.
Qed.

(** The key schedule of a key of [nk] words has [4 * (nk + 7)] words. *)
Lemma key_expansion_words key nk :
  (1 <= nk)%nat -> length key = (4 * nk)%nat ->
  length (key_expansion key) = (4 * (nk + 7))%nat
  /\ Forall (fun c => length c = 4%nat) (key_expansion key).
Proof.
  intros Hnk Hk. unfold key_expansion.
  destruct (blocks_exact 4 nk key) as [B1 B2]; [lia|exact Hk|].
  rewrite Hk, Nat.mul_comm, Nat.div_mul by discriminate.
  remember (4 * (nk + 6 + 1) - nk)%nat as n eqn:Hn.
  assert (W1 : length (rev (map (map Byte.to_N) (blocks 4 key))) = nk).
  { rewrite length_rev, length_map. exact B1. }
  assert (W2 : Forall (fun c : list N => length c = 4%nat)
                      (rev (map (map Byte.to_N) (blocks 4 key)))).
  { apply Forall_rev, Forall_map.
    eapply Forall_impl; [|exact B2]. intros c Hc. cbn beta.
    rewrite length_map. exact Hc. }
  destruct (expand_words nk n nk _ (conj Hnk (Nat.eq_le_incl _ _ (eq_sym W1)))
              W2) as [E1 E2].
  split; [|apply Forall_rev; exact E2].
  rewrite length_rev, E1, W1. lia.
Qed.

(** A key of 32 bytes has 15 round keys of 16 bytes: AES-256. *)
Lemma round_keys_256 key :
  length key = 32%nat ->
  length (round_keys key) = 15%nat
  /\ Forall (fun rk => length rk = 16%nat) (round_keys key).
Proof.
  intros Hk. unfold round_keys.
  destruct (key_expansion_words key 8) as [L F]; [lia|rewrite Hk; lia|].
  generalize dependent (key_expansion key). intros ws L F.
  destruct (blocks_exact 4 15 ws) as [R1 R2]; [lia|rewrite L; lia|].
  split; [rewrite length_map; exact R1|].
  apply Forall_map. rewrite Forall_forall. intros rk Hrk.
  assert (Hlen : length rk = 4%nat).
  { rewrite Forall_forall in R2. exact (R2 rk Hrk). }
  assert (Hws : Forall (fun c : list N => length c = 4%nat) rk).
  { rewrite Forall_forall. intros c Hc. rewrite Forall_forall in F. apply F.
    exact (chunks_In 4 (length ws) ws rk c Hrk Hc). }
  clear Hrk R1 R2 L F.
  destruct rk as [|a [|b [|c [|d [|e t]]]]];
    try (cbn [length] in Hlen; lia).
  inversion_clear Hws as [|? ? Ha Hws1]. inversion_clear Hws1 as [|? ? Hb Hws2].
  inversion_clear Hws2 as [|? ? Hc Hws3]. inversion_clear Hws3 as [|? ? Hd _].
  cbn [concat]. rewrite !length_app, Ha, Hb, Hc, Hd. reflexivity.
Qed.

End KeyFacts.

(** X5: [deriveKey] yields 32 bytes, a 256-bit AES key, for every master
    key and salt text, the empty ones too; its key schedule has 15 round
    keys of 16 bytes, so every block is encrypted with the 14 rounds of
    AES-256. *)
Theorem deriveKey_length (masterKey salt : jsstring) :
  length (deriveKey masterKey salt) = 32%nat
  /\ length (AES.round_keys (deriveKey masterKey salt)) = 15%nat
  /\ Forall (fun rk => length rk = 16%nat)
            (AES.round_keys (deriveKey masterKey salt)).
Proof.
  assert (H : length (deriveKey masterKey salt) = 32%nat)
    by apply pbkdf2_length.
  split; [exact H|]. now apply KeyFacts.round_keys_256.
Qed.

(* ================================================================== *)
(** * Which texts come back *)
(* ================================================================== *)

(** X6: whatever the envelope and the master key, a text that
    [decryptData] returns is well-formed UTF-16: it has no unpaired
    surrogate. *)
Theorem decryptData_returns_well_formed (envelope k : jsstring) :
  match decryptData envelope k with
  | Ok s => UTF8.well_formed s = true
  | Err _ => True
  end.
Proof.
  unfold decryptData. destruct (Base64.atob envelope) as [binary|e];
    cbn [bind]; [|exact I].
  destruct (GCM.decrypt _ _ _) as [pt|e]; cbn [bind]; [|exact I].
  apply DecoderFacts.decode_well_formed.
Qed.


(* ================================================================== *)
(** * More about the session *)
(* ================================================================== *)

Section SessionInvariants.
Import Session SessionFacts.

Lemma run_snoc st es e : run st (es ++ [e]) = step (run st es) e.
Proof. unfold run. now rewrite fold_left_app. Qed.

Lemma tick_cases now st : tick now st = st \/ tick now st = logout st.
Proof.
  unfold tick. destruct (isAuthenticated st); [|now left].
  destruct (30000 <? now - lastActivity st)%Z; [now right|now left].
Qed.

(** X8: whatever the events since [AuthProvider] was mounted, the master
    key and the user id are both held or both [null]; a master key that
    is held is the one of the last login, no logout came after that
    login, and the user id held is the one of that login. *)
Theorem session_holds_last_login (t : Z) (es : list event) :
  let st := run (initial_session t) es in
  (masterKey st = None <-> userId st = None)
  /\ forall key,
       masterKey st = Some key ->
       exists id now es1 es2,
         es = es1 ++ Login key id now :: es2
         /\ forallb keeps_session es2 = true
         /\ userId st = Some id.
Proof.
  induction es as [|e es IH] using rev_ind.
  - cbn. split; [tauto|discriminate].
  - cbv zeta in *. rewrite run_snoc.
    destruct IH as [IH1 IH2].
    assert (Hkeep : keeps_session e = true ->
                    masterKey (step (run (initial_session t) es) e)
                    = masterKey (run (initial_session t) es)
                    /\ userId (step (run (initial_session t) es) e)
                       = userId (run (initial_session t) es) ->
                    (masterKey (step (run (initial_session t) es) e) = None
                     <-> userId (step (run (initial_session t) es) e) = None)
                    /\ forall key,
                         masterKey (step (run (initial_session t) es) e)
                         = Some key ->
                         exists id now es1 es2,
                           es ++ [e] = es1 ++ Login key id now :: es2
                           /\ forallb keeps_session es2 = true
                           /\ userId (step (run (initial_session t) es) e)
                              = Some id).
    { intros Hk [Em Eu]. rewrite Em, Eu. split; [exact IH1|].
      intros key Hkey.
      destruct (IH2 key Hkey) as (id & now & es1 & es2 & E & F & U).
      exists id, now, es1, (es2 ++ [e]). split.
      - rewrite E, <- app_assoc. reflexivity.
      - split; [|exact U].
        rewrite forallb_app, F. cbn [forallb]. now rewrite Hk. }
    destruct e as [key id now| |now|now].
    + cbn [step login masterKey userId]. split; [split; discriminate|].
      intros key' [= <-]. exists id, now, es, []. repeat split.
    + cbn [step logout masterKey userId]. split; [tauto|discriminate].
    + apply Hkeep; [reflexivity|]. split; reflexivity.
    + destruct (tick_cases now (run (initial_session t) es)) as [E|E].
      * apply Hkeep; [reflexivity|]. cbn [step]. rewrite E. now split.
      * cbn [step]. rewrite E. cbn [logout masterKey userId].
        split; [tauto|discriminate].
Qed.

Lemma lastActivity_run t es :
  lastActivity (run (initial_session t) es) = last_active t es.
Proof.
  induction es as [|e es IH] using rev_ind; [reflexivity|].
  rewrite run_snoc. unfold last_active. rewrite fold_left_app.
  fold (last_active t es). rewrite <- IH. cbn [fold_left].
  destruct e as [key id now| |now|now]; try reflexivity.
  cbn [step].
  destruct (tick_cases now (run (initial_session t) es)) as [E|E];
    rewrite E; reflexivity.
Qed.

(** X9: the time the session keeps as its last activity is the time of
    the last login or activity event; and whenever a session is
    authenticated right after a firing of the interval, that event is at
    most 30 seconds older than the firing. *)
Theorem session_alive_means_recent_activity (t now : Z) (es : list event) :
  lastActivity (run (initial_session t) es) = last_active t es
  /\ (isAuthenticated (run (initial_session t) (es ++ [Tick now])) = true ->
      (now - last_active t es <= 30000)%Z).
Proof.
  split; [apply lastActivity_run|].
  rewrite run_snoc. cbn [step]. rewrite <- lastActivity_run.
  set (st := run (initial_session t) es).
  unfold tick. destruct (isAuthenticated st) eqn:Ha.
  - destruct (Z.ltb_spec 30000 (now - lastActivity st)); [discriminate|].
    intros _. assumption.
  - rewrite Ha. discriminate.
Qed.

End SessionInvariants.

(* ================================================================== *)
(** * Creating an account *)
(* ================================================================== *)

Module AccountFacts.
Import Supabase Account VerifyFacts.

Lemma signUp_users email password su p :
  users (signUp email password su p) = users p.
Proof.
  unfold signUp. destruct (su_error su), (su_user_id su), (su_session su);
    reflexivity.
Qed.

Lemma str_eqb_refl a : str_eqb a a = true.
Proof. now apply str_eqb_eq. Qed.

Lemma str_eqb_neq a b : a <> b -> str_eqb a b = false.
Proof.
  intros H. destruct (str_eqb a b) eqn:E; [|reflexivity].
  apply str_eqb_eq in E. contradiction.
Qed.

(** No row that is there has the id of a row the constraints accept. *)
Lemma violates_false_id row rows :
  violates row rows = false ->
  forall u, In u rows -> str_eqb (id u) (id row) = false.
Proof.
  unfold violates. intros H u Hu.
  destruct (str_eqb (id u) (id row)) eqn:E; [|reflexivity].
  assert (X : existsb
                (fun u => str_eqb (id u) (id row)
                          || same_value (email u) (email row)
                          || same_value (phone_number u) (phone_number row))
                rows = true).
  { apply existsb_exists. exists u. split; [exact Hu|]. now rewrite E. }
  congruence.
Qed.

Lemma createAccount_inr masterKey email phoneNumber recoveryCode now dbNow su
    p uid :
  fst (createAccount masterKey email phoneNumber recoveryCode now dbNow su p)
  = inr uid ->
  su_error su = false /\ su_user_id su = Some uid
  /\ violates (new_user uid masterKey email phoneNumber recoveryCode dbNow)
              (users p) = false
  /\ snd (createAccount masterKey email phoneNumber recoveryCode now dbNow
                        su p)
     = let p1 := signUp (signUpEmail email now) masterKey su p in
       mkProject
         (users p
          ++ [new_user uid masterKey email phoneNumber recoveryCode dbNow])
         (accounts p1) (session p1) (calls p1).
Proof.
  unfold createAccount.
  destruct (su_error su) eqn:Ee; [discriminate|].
  destruct (su_user_id su) as [u|] eqn:Eu; [|discriminate].
  unfold insertUser. rewrite signUp_users.
  fold (new_user u masterKey email phoneNumber recoveryCode dbNow).
  destruct (violates _ (users p)) eqn:Ev; cbn [fst snd]; [discriminate|].
  intros [= <-]. split; [reflexivity|]. split; [reflexivity|].
  split; [exact Ev|]. reflexivity.
Qed.

(** What [verifyMasterKey] answers when the identity provider rejects
    the sign-in. *)
Lemma verify_by_hash key p :
  accounts p login_email key = None ->
  fst (verifyMasterKey key p)
  = match maybeSingle
            (filter (fun u => str_eqb (master_key_hash u) (hashMasterKey key))
                    (visible_users p)) with
    | mkQuery (Some u) false => mkVerify true (Some (id u))
    | _ => mkVerify false None
    end.
Proof.
  intros H. unfold verifyMasterKey, signInWithPassword. fold login_email.
  rewrite H. cbn [authError]. unfold selectUserByHash.
  cbn [visible_users session users calls accounts].
  change (match session p with
          | Some uid => filter (fun u => str_eqb (id u) uid) (users p)
          | None => []
          end) with (visible_users p).
  destruct (maybeSingle _) as [[u|] [|]]; reflexivity.
Qed.

Lemma verify_by_account key p uid :
  accounts p login_email key = Some uid ->
  fst (verifyMasterKey key p) = mkVerify true (Some uid).
Proof.
  intros H. unfold verifyMasterKey, signInWithPassword. fold login_email.
  rewrite H. reflexivity.
Qed.

(** The address made up for a user who gives none is never the one
    [verifyMasterKey] signs in with. *)
Lemma generated_address now : signUpEmail None now <> login_email.
Proof.
  unfold signUpEmail, orNull. cbn [truthy].
  intros H. apply (f_equal (fun s => nth 4 s 0)) in H.
  vm_compute in H. discriminate.
Qed.

Lemma visible_after_create masterKey email phoneNumber recoveryCode now dbNow
    su p uid :
  fst (createAccount masterKey email phoneNumber recoveryCode now dbNow su p)
  = inr uid ->
  su_session su = true ->
  let p' := snd (createAccount masterKey email phoneNumber recoveryCode now
                               dbNow su p) in
  visible_users p'
  = [new_user uid masterKey email phoneNumber recoveryCode dbNow]
  /\ forall e pw,
       accounts p' e pw
       = if str_eqb e (signUpEmail email now) && str_eqb pw masterKey
         then Some uid else accounts p e pw.
Proof.
  intros Hr Hs. cbv zeta.
  destruct (createAccount_inr _ _ _ _ _ _ _ _ _ Hr) as (Ee & Eu & Ev & Ep).
  rewrite Ep. cbv zeta. unfold signUp. rewrite Ee, Eu, Hs.
  cbn [accounts session calls users]. split; [|reflexivity].
  unfold visible_users. cbn [session users]. rewrite filter_app.
  rewrite filter_none.
  - cbn [filter app new_user id]. now rewrite str_eqb_refl.
  - intros u Hu. apply (violates_false_id _ _ Ev u Hu).
Qed.

(** The account [createAccount] has made is the one [verifyMasterKey]
    finds, when the sign-up opened a session. *)
Lemma verify_accepts_created masterKey email phoneNumber recoveryCode now
    dbNow su p uid :
  fst (createAccount masterKey email phoneNumber recoveryCode now dbNow su p)
  = inr uid ->
  su_session su = true ->
  (forall key, accounts p login_email key = None) ->
  fst (verifyMasterKey masterKey
         (snd (createAccount masterKey email phoneNumber recoveryCode now
                             dbNow su p)))
  = mkVerify true (Some uid).
Proof.
  intros Hr Hs Hacc.
  destruct (visible_after_create _ _ _ _ _ _ _ _ _ Hr Hs) as [Hvis Ha].
  cbv zeta in Hvis, Ha.
  set (p' := snd (createAccount masterKey email phoneNumber recoveryCode now
                                dbNow su p)) in *.
  destruct (accounts p' login_email masterKey) as [u|] eqn:Ea.
  - rewrite (verify_by_account _ _ u); [|exact Ea].
    rewrite Ha in Ea.
    destruct (str_eqb login_email (signUpEmail email now)
              && str_eqb masterKey masterKey); [congruence|].
    rewrite Hacc in Ea. discriminate.
  - rewrite verify_by_hash; [|exact Ea]. rewrite Hvis.
    cbn [filter new_user master_key_hash].
    rewrite str_eqb_refl. reflexivity.
Qed.

Lemma verify_refuses_other masterKey key' email phoneNumber recoveryCode now
    dbNow su p uid :
  fst (createAccount masterKey email phoneNumber recoveryCode now dbNow su p)
  = inr uid ->
  su_session su = true ->
  (forall key, accounts p login_email key = None) ->
  hashMasterKey key' <> hashMasterKey masterKey ->
  fst (verifyMasterKey key'
         (snd (createAccount masterKey email phoneNumber recoveryCode now
                             dbNow su p)))
  = mkVerify false None.
Proof.
  intros Hr Hs Hacc Hk.
  destruct (visible_after_create _ _ _ _ _ _ _ _ _ Hr Hs) as [Hvis Ha].
  cbv zeta in Hvis, Ha.
  rewrite verify_by_hash.
  - rewrite Hvis. cbn [filter new_user master_key_hash].
    rewrite str_eqb_neq; [reflexivity|]. congruence.
  - rewrite Ha. rewrite (str_eqb_neq key' masterKey) by congruence.
    rewrite andb_false_r. apply Hacc.
Qed.

(** The address of a sign-up is the fixed address of the sign-in only
    when the user typed that very address. *)
Lemma signUpEmail_other email now :
  orNull email <> Some login_email -> signUpEmail email now <> login_email.
Proof.
  intros H. unfold signUpEmail. destruct (orNull email) as [e|] eqn:E.
  - intros ->. now apply H.
  - intros Hg. apply (generated_address now).
    unfold signUpEmail. cbn [orNull truthy]. exact Hg.
Qed.

Lemma createAccount_accounts masterKey email phoneNumber recoveryCode now
    dbNow su p :
  accounts (snd (createAccount masterKey email phoneNumber recoveryCode now
                               dbNow su p))
  = accounts (signUp (signUpEmail email now) masterKey su p)
  /\ calls (snd (createAccount masterKey email phoneNumber recoveryCode now
                               dbNow su p))
     = calls p.
Proof.
  assert (Hc : forall e pw, calls (signUp e pw su p) = calls p).
  { intros e pw. unfold signUp.
    destruct (su_error su), (su_user_id su), (su_session su); reflexivity. }
  unfold createAccount.
  destruct (su_error su) eqn:Ee; [split; [reflexivity|apply Hc]|].
  destruct (su_user_id su) as [uid|] eqn:Eu; [|split; [reflexivity|apply Hc]].
  unfold insertUser. destruct (violates _ _); cbn [snd accounts calls];
    (split; [reflexivity|apply Hc]).
Qed.

End AccountFacts.

Section AccountProperties.
Import Supabase Account VerifyFacts AccountFacts.

(** X10: [createAccount] leaves table [users] as it was whenever it
    throws.  When it returns an id, that id is the one the sign-up gave,
    exactly one row was appended, with this id, the hash of the master
    key and the recovery code, and the ids of the table are still
    distinct. *)
Theorem createAccount_outcome (masterKey : jsstring)
    (email phoneNumber : option jsstring) (recoveryCode : jsstring)
    (now : N) (dbNow : jsstring) (su : SignUpResponse) (p : project) :
  NoDup (map id (users p)) ->
  let r := createAccount masterKey email phoneNumber recoveryCode now dbNow
                         su p in
  match fst r with
  | inl SignUpFailed =>
      snd r = p /\ (su_error su = true \/ su_user_id su = None)
  | inl InsertFailed =>
      users (snd r) = users p /\ su_error su = false
      /\ exists uid,
           su_user_id su = Some uid
           /\ violates
                (new_user uid masterKey email phoneNumber recoveryCode dbNow)
                (users p) = true
  | inr uid =>
      su_user_id su = Some uid
      /\ users (snd r)
         = users p
           ++ [mkUser uid (orNull email) (orNull phoneNumber)
                      (hashMasterKey masterKey) (Some recoveryCode)
                      dbNow dbNow]
      /\ NoDup (map id (users (snd r)))
  end.
Proof.
  intros Hnd. cbv zeta. unfold createAccount.
  destruct (su_error su) eqn:Ee.
  { cbn [fst snd]. unfold signUp. rewrite Ee. split; [reflexivity|now left]. }
  destruct (su_user_id su) as [uid|] eqn:Eu.
  2:{ cbn [fst snd]. unfold signUp. rewrite Ee, Eu.
      split; [reflexivity|now right]. }
  unfold insertUser. rewrite signUp_users.
  fold (new_user uid masterKey email phoneNumber recoveryCode dbNow).
  destruct (violates _ (users p)) eqn:Ev; cbn [fst snd].
  - rewrite signUp_users. split; [reflexivity|]. split; [reflexivity|].
    exists uid. now split.
  - cbn [users]. split; [reflexivity|]. split; [reflexivity|].
    rewrite map_app. cbn [map new_user id].
    apply NoDup_app;
      [exact Hnd|constructor; [intros []|constructor]|].
    intros x Hx [<-|[]]. apply in_map_iff in Hx. destruct Hx as (u & Eux & Hu).
    pose proof (violates_false_id _ _ Ev u Hu) as Hne.
    cbn [new_user id] in Hne. rewrite Eux, str_eqb_refl in Hne. discriminate.
Qed.

Lemma createAccount_outcome_witness :
  NoDup (map id (users sample_project))
  /\ users (snd (createAccount (js "another-master-key") None None
                               (js "recovery") 1762171408000 (js "2025-11-03")
                               (mkSignUp (Some (js "user-2")) false true)
                               sample_project))
     = [sample_user;
        mkUser (js "user-2") None None
               (hashMasterKey (js "another-master-key"))
               (Some (js "recovery")) (js "2025-11-03") (js "2025-11-03")].
Proof.
  assert (Hnd : NoDup (map id (users sample_project))).
  { cbn. constructor; [intros []|constructor]. }
  split; [exact Hnd|].
  exact (proj1 (proj2 (createAccount_outcome
                         (js "another-master-key") None None
                         (js "recovery") 1762171408000 (js "2025-11-03")
                         (mkSignUp (Some (js "user-2")) false true)
                         sample_project Hnd))).
Defined.

(** X11: an account that [createAccount] has just made, with a sign-up
    that opened a session, is found by [verifyMasterKey]: the master key
    is accepted with the id of the new user, and a key with another hash
    is refused.  (The project had distinct ids and no account of the
    address [verifyMasterKey] signs in with.) *)
Theorem created_account_verifies (masterKey key' : jsstring)
    (email phoneNumber : option jsstring) (recoveryCode : jsstring)
    (now : N) (dbNow : jsstring) (su : SignUpResponse) (p : project)
    (uid : jsstring) :
  fst (createAccount masterKey email phoneNumber recoveryCode now dbNow su p)
  = inr uid ->
  su_session su = true ->
  (forall key, accounts p login_email key = None) ->
  hashMasterKey key' <> hashMasterKey masterKey ->
  let p' := snd (createAccount masterKey email phoneNumber recoveryCode now
                               dbNow su p) in
  fst (verifyMasterKey masterKey p') = mkVerify true (Some uid)
  /\ fst (verifyMasterKey key' p') = mkVerify false None.
Proof.
  intros Hr Hs Hacc Hk. cbv zeta. split.
  - exact (verify_accepts_created _ _ _ _ _ _ _ _ _ Hr Hs Hacc).
  - exact (verify_refuses_other _ _ _ _ _ _ _ _ _ _ Hr Hs Hacc Hk).
Qed.

Lemma created_account_verifies_witness :
  fst (verifyMasterKey (js "correct-master-key")
         (snd (createAccount (js "correct-master-key")
                 (Some (js "alice@example.com")) None (js "recovery")
                 1762171408000 (js "2025-11-03")
                 (mkSignUp (Some (js "user-1")) false true) empty_project)))
  = mkVerify true (Some (js "user-1")).
Proof.
  assert (Hk : hashMasterKey (js "wrong-master-key")
               <> hashMasterKey (js "correct-master-key")).
  { vm_compute. discriminate. }
  exact (proj1 (created_account_verifies
                  (js "correct-master-key") (js "wrong-master-key")
                  (Some (js "alice@example.com")) None (js "recovery")
                  1762171408000 (js "2025-11-03")
                  (mkSignUp (Some (js "user-1")) false true) empty_project
                  (js "user-1") eq_refl eq_refl (fun _ => eq_refl) Hk)).
Defined.

(** X12: an account made by a sign-up that opened no session cannot be
    verified from a client without a session, even with the right master
    key, although its row is in table [users]: the identity provider
    knows no password for the address of the sign-in, and the query by
    hash sees no row. *)
Theorem account_without_session_is_not_found (masterKey : jsstring)
    (email phoneNumber : option jsstring) (recoveryCode : jsstring)
    (now : N) (dbNow : jsstring) (su : SignUpResponse) (p : project)
    (uid : jsstring) :
  fst (createAccount masterKey email phoneNumber recoveryCode now dbNow su p)
  = inr uid ->
  su_session su = false ->
  session p = None ->
  accounts p login_email masterKey = None ->
  let p' := snd (createAccount masterKey email phoneNumber recoveryCode now
                               dbNow su p) in
  In (new_user uid masterKey email phoneNumber recoveryCode dbNow) (users p')
  /\ fst (verifyMasterKey masterKey p') = mkVerify false None.
Proof.
  intros Hr Hs Hsess Hacc. cbv zeta.
  destruct (createAccount_inr _ _ _ _ _ _ _ _ _ Hr) as (Ee & Eu & Ev & Ep).
  rewrite Ep. cbv zeta. unfold signUp. rewrite Ee, Eu, Hs.
  split.
  - cbn [users]. apply in_or_app. right. now left.
  - rewrite verify_by_hash; [|exact Hacc].
    unfold visible_users. cbn [session]. rewrite Hsess. reflexivity.
Qed.

Lemma account_without_session_is_not_found_witness :
  fst (verifyMasterKey (js "correct-master-key")
         (snd (createAccount (js "correct-master-key") None None
                 (js "recovery") 1762171408000 (js "2025-11-03")
                 (mkSignUp (Some (js "user-1")) false false) empty_project)))
  = mkVerify false None.
Proof.
  exact (proj2 (account_without_session_is_not_found
                  (js "correct-master-key") None None (js "recovery")
                  1762171408000 (js "2025-11-03")
                  (mkSignUp (Some (js "user-1")) false false) empty_project
                  (js "user-1") eq_refl eq_refl eq_refl eq_refl)).
Defined.

(** X13: the sign-in of [verifyMasterKey] never uses the address of the
    account.  [createAccount] signs up with the typed address, or with a
    made-up [user_<time>@securevault.local]; [verifyMasterKey] signs in
    as [user@securevault.local].  Unless the user typed that very
    address, the identity provider knows no more passwords for it after
    [createAccount] than before: if it knew none, it rejects the sign-in
    for every key, and every verification sends both requests, the
    sign-in and then the query by hash. *)
Theorem sign_in_never_matches (masterKey : jsstring)
    (email phoneNumber : option jsstring) (recoveryCode : jsstring)
    (now : N) (dbNow : jsstring) (su : SignUpResponse) (p : project)
    (key : jsstring) :
  orNull email <> Some login_email ->
  (forall k, accounts p login_email k = None) ->
  let p' := snd (createAccount masterKey email phoneNumber recoveryCode now
                               dbNow su p) in
  accounts p' login_email key = None
  /\ calls (snd (verifyMasterKey key p'))
     = calls p ++ [SignInWithPassword login_email key;
                   SelectUserByHash (hashMasterKey key)].
Proof.
  intros He Hacc. cbv zeta.
  destruct (createAccount_accounts masterKey email phoneNumber recoveryCode
              now dbNow su p) as [Ea Ec].
  assert (Hnone : accounts
                    (snd (createAccount masterKey email phoneNumber
                            recoveryCode now dbNow su p)) login_email key
                  = None).
  { rewrite Ea. unfold signUp.
    destruct (su_error su); [apply Hacc|].
    destruct (su_user_id su) as [uid|]; [|apply Hacc].
    destruct (su_session su); [|apply Hacc].
    cbn [accounts].
    rewrite (str_eqb_neq login_email (signUpEmail email now)).
    - apply Hacc.
    - intros E. now apply (signUpEmail_other email now He). }
  split; [exact Hnone|].
  unfold verifyMasterKey, signInWithPassword. fold login_email.
  rewrite Hnone. cbn [authError]. unfold selectUserByHash.
  destruct (maybeSingle _) as [[u|] [|]]; cbn [snd calls];
    rewrite Ec, <- app_assoc; reflexivity.
Qed.

Lemma sign_in_never_matches_witness :
  calls (snd (verifyMasterKey (js "correct-master-key")
                (snd (createAccount (js "correct-master-key") None None
                        (js "recovery") 1762171408000 (js "2025-11-03")
                        (mkSignUp (Some (js "user-1")) false true)
                        empty_project))))
  = calls empty_project
    ++ [SignInWithPassword login_email (js "correct-master-key");
        SelectUserByHash (hashMasterKey (js "correct-master-key"))].
Proof.
  assert (He : orNull None <> Some login_email) by discriminate.
  exact (proj2 (sign_in_never_matches (js "correct-master-key") None None
                  (js "recovery") 1762171408000 (js "2025-11-03")
                  (mkSignUp (Some (js "user-1")) false true) empty_project
                  (js "correct-master-key") He (fun _ => eq_refl))).
Defined.

End AccountProperties.

(* ================================================================== *)
(** * The login form *)
(* ================================================================== *)

Section LoginFormProperties.
Import Supabase Account VerifyFacts AccountFacts LoginForm.




(** X16: [handleLogin] on any project.  When the identity provider
    rejects the typed key and no row the client may read stores its hash,
    the session stays as it was and the message is "Invalid master key";
    and whenever the session is changed, it is to a session with the
    typed key and a non-empty user id that [verifyMasterKey] returned
    with success. *)
Theorem handleLogin_only_opens_verified (now : Z) (f : form)
    (s : Session.state) (p : project) :
  accounts p login_email (masterKey f) = None ->
  (forall u, In u (visible_users p) ->
             master_key_hash u <> hashMasterKey (masterKey f)) ->
  let r := handleLogin now f s p in
  snd (fst r) = s
  /\ error (fst (fst r)) = InvalidMasterKey
  /\ loading (fst (fst r)) = false
  /\ forall q,
       snd (fst (handleLogin now f s q)) <> s ->
       exists uid,
         uid <> []
         /\ fst (verifyMasterKey (masterKey f) q) = mkVerify true (Some uid)
         /\ snd (fst (handleLogin now f s q))
            = Session.login (masterKey f) uid now s.
Proof.
  intros Hacc Hno. cbv zeta. split; [|split; [|split]].
  1-3: unfold handleLogin; cbn [setError setLoading masterKey];
    destruct (verifyMasterKey (masterKey f) p) as [res p2] eqn:Ev;
    assert (Hres : res = mkVerify false None);
    [ change res with (fst (res, p2)); rewrite <- Ev;
      rewrite verify_by_hash by exact Hacc;
      rewrite filter_none; [reflexivity|];
      intros u Hu; apply str_eqb_neq; now apply Hno
    | subst res; reflexivity ].
  intros q Hq. unfold handleLogin in *.
  cbn [setError setLoading masterKey] in *.
  destruct (verifyMasterKey (masterKey f) q) as [[ok [uid|]] q2];
    cbn [verifiedUserId success fst snd] in *; [|contradiction].
  destruct ok; cbn [andb] in *; [|contradiction].
  destruct uid as [|c uid]; cbn [truthy fst snd] in *; [contradiction|].
  exists (c :: uid). split; [discriminate|]. split; reflexivity.
Qed.

Lemma handleLogin_only_opens_verified_witness :
  snd (fst (handleLogin 5000 (sample_form "wrong-master-key" "")
                        (initial_session 0) sample_project))
  = initial_session 0.
Proof.
  assert (Hno : forall u, In u (visible_users sample_project) ->
                master_key_hash u
                <> hashMasterKey
                     (masterKey (sample_form "wrong-master-key" ""))).
  { intros u [<-|[]]. vm_compute. discriminate. }
  exact (proj1 (handleLogin_only_opens_verified 5000
                  (sample_form "wrong-master-key" "") (initial_session 0)
                  sample_project eq_refl Hno)).
Defined.

End LoginFormProperties.

(* ================================================================== *)
(** * From the password form to the vault *)
(* ================================================================== *)

Module FormFacts.
Import PasswordForm.



Lemma orNull_some s :
  Account.orNull (Some s) = match s with [] => None | _ => Some s end.
Proof. destruct s; reflexivity. Qed.





End FormFacts.

Section FormProperties.
Import PasswordForm FormFacts.







End FormProperties.

(* ================================================================== *)
(** * Deleting a password *)
(* ================================================================== *)

Section DeleteProperties.
Import DashboardActions VerifyFacts.

(** X20: a confirmed [handleDeletePassword] asks the store to delete the
    row with the given id, clears the selection, and leaves in the list
    exactly the records with another id, in their order (what is kept of
    a list is what is kept of its beginning followed by what is kept of
    its end); this does not depend on the answer of the store.  When no listed record has the id
    the list is unchanged.  Without the confirmation nothing is asked
    and nothing changes. *)
Theorem handleDeletePassword_removes (storeError : bool) (id : jsstring)
    (passwords : list Dashboard.DecryptedPassword)
    (selectedPassword : option Dashboard.DecryptedPassword) :
  let r := handleDeletePassword true storeError id passwords
                                selectedPassword in
  fst (fst r) = Some id
  /\ snd r = None
  /\ (forall p, In p (snd (fst r)) <->
                In p passwords /\ Dashboard.d_id p <> id)
  /\ (exists removed,
        Forall (fun p => Dashboard.d_id p = id) removed
        /\ Permutation passwords (snd (fst r) ++ removed))
  /\ ((forall p, In p passwords -> Dashboard.d_id p <> id) ->
      snd (fst r) = passwords)
  /\ (forall before after,
        passwords = before ++ after ->
        snd (fst r)
        = snd (fst (handleDeletePassword true storeError id before
                                         selectedPassword))
          ++ snd (fst (handleDeletePassword true storeError id after
                                            selectedPassword)))
  /\ r = handleDeletePassword true (negb storeError) id passwords
                              selectedPassword
  /\ handleDeletePassword false storeError id passwords selectedPassword
     = (None, passwords, selectedPassword).
Proof.
  cbv zeta. unfold handleDeletePassword. cbn [fst snd].
  split; [reflexivity|]. split; [reflexivity|].
  split; [|split; [|split; [|split]]].
  - intros p. rewrite filter_In, negb_true_iff. split.
    + intros [Hin Hne]. split; [exact Hin|]. intros E.
      apply str_eqb_eq in E. congruence.
    + intros [Hin Hne]. split; [exact Hin|].
      now apply AccountFacts.str_eqb_neq.
  - exists (filter (fun p => str_eqb (Dashboard.d_id p) id) passwords).
    split.
    + apply Forall_forall. intros p Hp. apply filter_In in Hp.
      now apply str_eqb_eq.
    + induction passwords as [|p ps IH]; [constructor|].
      cbn [filter]. destruct (str_eqb (Dashboard.d_id p) id); cbn [negb].
      * apply Permutation_cons_app. exact IH.
      * cbn [app]. now constructor.
  - intros Hno. induction passwords as [|p ps IH]; [reflexivity|].
    cbn [filter]. rewrite AccountFacts.str_eqb_neq by (apply Hno; now left).
    cbn [negb]. f_equal. apply IH. intros q Hq. apply Hno. now right.
  - intros before after ->. apply filter_app.
  - split; reflexivity.
Qed.

End DeleteProperties.

(* ================================================================== *)
(** * The category manager *)
(* ================================================================== *)

Module TrimFacts.
Import CategoryManager.

Lemma trimStart_split s :
  exists pre,
    s = pre ++ trimStart s /\ forallb is_white_space pre = true.
Proof.
  induction s as [|c t (pre & E & W)]; [now exists []|].
  cbn [trimStart]. destruct (is_white_space c) eqn:Ec.
  - exists (c :: pre). cbn [app forallb]. rewrite Ec, W. split; [|reflexivity].
    now rewrite <- E.
  - now exists [].
Qed.

Lemma trimStart_head s c t :
  trimStart s = c :: t -> is_white_space c = false.
Proof.
  induction s as [|d u IH]; [discriminate|].
  cbn [trimStart]. destruct (is_white_space d) eqn:Ed; [exact IH|].
  now intros [= <- _].
Qed.

(** A string that ends with a character that is not white space keeps
    it. *)
Lemma trimStart_snoc s c :
  is_white_space c = false -> trimStart (s ++ [c]) = trimStart s ++ [c].
Proof.
  intros Hc. induction s as [|d u IH]; cbn [trimStart app].
  - now rewrite Hc.
  - destruct (is_white_space d); [exact IH|reflexivity].
Qed.

Lemma trimStart_idem s : trimStart (trimStart s) = trimStart s.
Proof.
  destruct (trimStart s) as [|c t] eqn:E; [reflexivity|].
  cbn [trimStart]. now rewrite (trimStart_head s c t E).
Qed.

Lemma trimStart_nil s :
  trimStart s = [] <-> forallb is_white_space s = true.
Proof.
  induction s as [|c t IH]; [now split|].
  cbn [trimStart forallb]. destruct (is_white_space c); [exact IH|].
  split; discriminate.
Qed.

Lemma forallb_rev {A} (f : A -> bool) l :
  forallb f (rev l) = forallb f l.
Proof.
  induction l as [|a l IH]; [reflexivity|].
  cbn [rev forallb]. rewrite forallb_app, IH. cbn [forallb].
  rewrite andb_true_r. apply andb_comm.
Qed.

(** [trim] cuts a run of white space at each end, and what is left
    neither begins nor ends with white space. *)
Lemma trim_split s :
  exists pre post,
    s = pre ++ trim s ++ post
    /\ forallb is_white_space pre = true
    /\ forallb is_white_space post = true.
Proof.
  destruct (trimStart_split s) as (pre & E & W).
  destruct (trimStart_split (rev (trimStart s))) as (tsop & E' & W').
  exists pre, (rev tsop). unfold trim, trimEnd.
  rewrite <- rev_app_distr, <- E', rev_involutive.
  split; [exact E|]. split; [exact W|]. now rewrite forallb_rev.
Qed.

Lemma trim_last s c t :
  rev (trim s) = c :: t -> is_white_space c = false.
Proof.
  unfold trim, trimEnd. rewrite rev_involutive. apply trimStart_head.
Qed.

Lemma trim_head s c t :
  trim s = c :: t -> is_white_space c = false.
Proof.
  unfold trim, trimEnd.
  destruct (trimStart s) as [|d u] eqn:E; [discriminate|].
  pose proof (trimStart_head s d u E) as Hd.
  cbn [rev]. rewrite trimStart_snoc by exact Hd.
  rewrite rev_app_distr. cbn [rev app]. now intros [= <- _].
Qed.

Lemma trim_nil s : trim s = [] <-> forallb is_white_space s = true.
Proof.
  destruct (trim_split s) as (pre & post & E & W1 & W2). split.
  - intros H. rewrite H in E. rewrite E, forallb_app, W1. exact W2.
  - intros H. destruct (trim s) as [|c t] eqn:Et; [reflexivity|].
    pose proof (trim_head s c t Et) as Hc.
    rewrite E, !forallb_app in H. cbn [forallb] in H. rewrite Hc in H.
    rewrite andb_false_r in H. discriminate.
Qed.

Lemma trim_idem s : trim (trim s) = trim s.
Proof.
  unfold trim at 1. destruct (trim s) as [|c t] eqn:E; [reflexivity|].
  pose proof (trim_head s c t E) as Hc.
  cbn [trimStart]. rewrite Hc. unfold trimEnd.
  assert (H : trimStart (rev (c :: t)) = rev (c :: t)).
  { destruct (rev (c :: t)) as [|d u] eqn:Er; [reflexivity|].
    rewrite <- E in Er. cbn [trimStart]. now rewrite (trim_last s d u Er). }
  rewrite H. apply rev_involutive.
Qed.

End TrimFacts.

Section CategoryProperties.
Import CategoryManager TrimFacts.

(** X21: [handleCreateCategory] sends a request exactly when there is a
    user id and the typed name has a character that is not white space.
    The request is an insertion for that user with the typed colour; the
    name sent is the typed name without the white space at its two ends:
    it is not empty and neither begins nor ends with white space.  After
    a request the name field is empty and the colour is the default one;
    without a request the form is unchanged. *)
Theorem handleCreateCategory_sends_trimmed_name (userId : option jsstring)
    (f : form) :
  match fst (handleCreateCategory userId f) with
  | Some (InsertCategory uid name color) =>
      userId = Some uid /\ uid <> []
      /\ color = newCategoryColor f
      /\ name <> []
      /\ (exists pre post,
            newCategoryName f = pre ++ name ++ post
            /\ forallb is_white_space pre = true
            /\ forallb is_white_space post = true)
      /\ (forall c t, name = c :: t -> is_white_space c = false)
      /\ (forall c t, rev name = c :: t -> is_white_space c = false)
      /\ newCategoryName (snd (handleCreateCategory userId f)) = []
      /\ newCategoryColor (snd (handleCreateCategory userId f))
         = default_color
  | Some _ => False
  | None =>
      snd (handleCreateCategory userId f) = f
      /\ (truthy userId = false
          \/ forallb is_white_space (newCategoryName f) = true)
  end.
Proof.
  unfold handleCreateCategory. destruct userId as [uid|].
  2:{ cbn [fst snd]. split; [reflexivity|]. now left. }
  destruct (truthy (Some uid)) eqn:Eu; cbn [andb].
  2:{ cbn [fst snd]. split; [reflexivity|]. now left. }
  destruct (truthy (Some (trim (newCategoryName f)))) eqn:En;
    cbn [fst snd newCategoryName newCategoryColor].
  - split; [reflexivity|]. split; [intros ->; discriminate|].
    split; [reflexivity|]. split; [intros E; rewrite E in En; discriminate|].
    split; [apply trim_split|].
    split; [apply trim_head|]. split; [apply trim_last|]. now split.
  - split; [reflexivity|]. right. apply trim_nil.
    destruct (trim (newCategoryName f)); [reflexivity|discriminate].
Qed.

(** X22: [handleUpdateCategory] sends an update exactly when the edited
    name has a character that is not white space, with the name trimmed
    at both ends, and then closes the editor; in particular, right after
    [startEditing] it sends the category's own id, trimmed name and
    colour, and a second trimming would change nothing.  A confirmed
    [handleDeleteCategory] asks for the deletion of the given id, and an
    unconfirmed one asks for nothing. *)
Theorem handleUpdateCategory_sends_trimmed_name (id : jsstring) (f : form)
    (category : Dashboard.Category) (confirmed : bool) :
  match fst (handleUpdateCategory id f) with
  | Some (UpdateCategory id' name color) =>
      id' = id /\ color = editColor f
      /\ name = trim (editName f) /\ name <> [] /\ trim name = name
      /\ (forall c t, name = c :: t -> is_white_space c = false)
      /\ (forall c t, rev name = c :: t -> is_white_space c = false)
      /\ editingId (snd (handleUpdateCategory id f)) = None
  | Some _ => False
  | None =>
      snd (handleUpdateCategory id f) = f
      /\ forallb is_white_space (editName f) = true
  end
  /\ (existsb (fun c => negb (is_white_space c)) (Dashboard.cat_name category)
      = true ->
      fst (handleUpdateCategory (Dashboard.cat_id category)
                                (startEditing category f))
      = Some (UpdateCategory (Dashboard.cat_id category)
                             (trim (Dashboard.cat_name category))
                             (Dashboard.cat_color category)))
  /\ fst (handleDeleteCategory confirmed id f)
     = (if confirmed then Some (DeleteCategory id) else None).
Proof.
  split; [|split].
  - unfold handleUpdateCategory.
    destruct (truthy (Some (trim (editName f)))) eqn:En;
      cbn [fst snd editingId].
    + split; [reflexivity|]. split; [reflexivity|]. split; [reflexivity|].
      split; [intros E; rewrite E in En; discriminate|].
      split; [apply trim_idem|].
      split; [apply trim_head|]. split; [apply trim_last|reflexivity].
    + split; [reflexivity|]. apply trim_nil.
      destruct (trim (editName f)); [reflexivity|discriminate].
  - intros Hex. unfold handleUpdateCategory, startEditing.
    cbn [editName editColor].
    destruct (trim (Dashboard.cat_name category)) as [|c t] eqn:Et.
    + exfalso. apply trim_nil in Et.
      apply existsb_exists in Hex. destruct Hex as (c & Hc & Hw).
      rewrite forallb_forall in Et. rewrite (Et c Hc) in Hw. discriminate.
    + reflexivity.
  - unfold handleDeleteCategory. destruct confirmed; reflexivity.
Qed.

End CategoryProperties.
